(** * Codenames: rules engine and heuristic players

    A shallow embedding of [codenames.py]: the game state
    ([CodenamesGame]), the spymaster policy ([AISpymaster]), the operative
    policy ([AIGuesser]) and the turn loop of [play_game], followed by the
    properties established about them.

    Conventions of the embedding.
    - Python [str] values are [string]s over 8-bit characters; [lower] and
      [upper] act on the ASCII letters, which is what [str.lower] and
      [str.upper] do on the words of [WORD_POOL] and on the association
      tables (all ASCII).
    - Python [int]s are [Z].  The scores of [_score_word] are Python floats
      whose values are sums of small integers (exactly representable), so
      they are carried as [Z] too.
    - The card kinds ['RED'], ['BLUE'], ['NEUTRAL'], ['ASSASSIN'] and the
      default ['UNKNOWN'] of [get_card_type] form the type [CardType]; a
      team is one of the first two.
    - [dict]s keyed by words are [gmap string _], the [revealed] set is a
      [gset string]; the two dictionaries whose iteration order matters
      ([clue_scores], [scores]) are association lists in insertion order.
    - [random.sample], [random.shuffle] and [random.choice] are modelled by
      their results, constrained by what the library guarantees. *)

From Stdlib Require Import ZArith Lia List Ascii String Bool Permutation.
From stdpp Require Import base decidable option list gmap strings.

Import ListNotations.
Open Scope string_scope.
Open Scope list_scope.
Open Scope Z_scope.

(** ** Strings *)

Module Str.

Definition lower_ascii (c : ascii) : ascii :=
  let n := N_of_ascii c in
  if ((65 <=? n) && (n <=? 90))%N then ascii_of_N (n + 32) else c.

Definition upper_ascii (c : ascii) : ascii :=
  let n := N_of_ascii c in
  if ((97 <=? n) && (n <=? 122))%N then ascii_of_N (n - 32) else c.

(** [s.lower()] and [s.upper()]. *)
Fixpoint lower (s : string) : string :=
  match s with
  | EmptyString => EmptyString
  | String c t => String (lower_ascii c) (lower t)
  end.

Fixpoint upper (s : string) : string :=
  match s with
  | EmptyString => EmptyString
  | String c t => String (upper_ascii c) (upper t)
  end.

(** [len(s)]. *)
Definition len (s : string) : Z := Z.of_nat (String.length s).

(** [needle in hay] on strings: [needle] occurs as a contiguous run. *)
Fixpoint contains (needle hay : string) : bool :=
  String.prefix needle hay ||
  match hay with
  | EmptyString => false
  | String _ t => contains needle t
  end.

(** [s.replace('er', '')]: occurrences are removed left to right and the
    result is not scanned again. *)
Fixpoint remove_er (s : string) : string :=
  match s with
  | String "e" (String "r" t) => remove_er t
  | String c t => String c (remove_er t)
  | EmptyString => EmptyString
  end.

(** [s[:n]]. *)
Definition take (n : nat) (s : string) : string := String.substring 0 n s.

(** [set(s)] as the list of the distinct characters of [s]. *)
Definition chars (s : string) : list ascii :=
  nodup ascii_dec (list_ascii_of_string s).

(** [len(set(a) & set(b))]. *)
Definition overlap (a b : string) : Z :=
  Z.of_nat
    (List.length
       (List.filter
          (fun c => if in_dec ascii_dec c (chars b) then true else false)
          (chars a))).

(** [w in l] for a list of strings. *)
Definition mem (w : string) (l : list string) : bool :=
  existsb (String.eqb w) l.

End Str.

(** ** The word pool *)

Definition WORD_POOL : list string := [
  "APPLE"; "BALL"; "BANK"; "BEACH"; "BEAR"; "BED"; "BOOK"; "BOTTLE";
  "BRIDGE"; "BROTHER"; "CAT"; "CHINA"; "CHURCH"; "CIRCLE"; "CLOUD"; "CODE";
  "COOK"; "CROSS"; "CROWN"; "DANCE"; "DIAMOND"; "DOCTOR"; "DRAGON"; "DRESS";
  "DRILL"; "DROP"; "DUCK"; "EGG"; "EGYPT"; "ELEPHANT"; "ENGINE"; "ENGLAND";
  "EYE"; "FACE"; "FAIR"; "FALL"; "FAN"; "FENCE"; "FIELD"; "FIGHTER";
  "FIGURE"; "FILE"; "FILM"; "FIRE"; "FISH"; "FLUTE"; "FLY"; "FOOT"; "FORCE";
  "FOREST"; "FORK"; "FRANCE"; "GAME"; "GAS"; "GENIUS"; "GERMANY"; "GHOST";
  "GIANT"; "GLASS"; "GLOVE"; "GOLD"; "GRACE"; "GRASS"; "GREEN"; "GROUND";
  "HAMMER"; "HAND"; "HAT"; "HAWK"; "HEAD"; "HEART"; "HELICOPTER";
  "HIMALAYAS"; "HOLE"; "HOLLYWOOD"; "HONEY"; "HORN"; "HORSE"; "HOSPITAL";
  "HOTEL"; "ICE"; "ICON"; "IGLOO"; "INDIA"; "IRON"; "IVORY"; "JACK"; "JAM";
  "JET"; "JUPITER"; "KANGAROO"; "KETCHUP"; "KEY"; "KING"; "KIWI"; "KNIFE";
  "KNIGHT"; "LAB"; "LAP"; "LASER"; "LAWYER"; "LEAD"; "LEMON"; "LEPRECHAUN";
  "LIFE"; "LIGHT"; "LIMOUSINE"; "LINE"; "LINK"; "LION"; "LITTER"; "LOCH";
  "LOCK"; "LOG"; "LONDON"; "LUCK"; "MAIL"; "MAMMOTH"; "MAPLE"; "MARCH";
  "MASS"; "MATCH"; "MERCURY"; "MEXICO"; "MICROSCOPE"; "MILLIONAIRE"; "MINE";
  "MINT"; "MISSILE"; "MODEL"; "MOLE"; "MOON"; "MOSCOW"; "MOUNT"; "MOUSE";
  "MOUTH"; "MUG"; "NAIL"; "NEEDLE"; "NET"; "NEW YORK"; "NIGHT"; "NINJA";
  "NOTE"; "NOVEL"; "NURSE"; "NUT"; "OCTOPUS"; "OIL"; "OLIVE"; "OLYMPUS";
  "OPERA"; "ORANGE"; "ORGAN"; "PALM"; "PAN"; "PANTS"; "PAPER"; "PARACHUTE";
  "PARK"; "PART"; "PASS"; "PASTE"; "PENGUIN"; "PHOENIX"; "PIANO"; "PIE";
  "PILOT"; "PIN"; "PIPE"; "PIRATE"; "PISTOL"; "PIT"; "PITCH"; "PLANE";
  "PLANT"; "PLASTIC"; "PLATE"; "PLAY"; "PLOT"; "POINT"; "POISON"; "POLE";
  "POLICE"; "POOL"; "PORT"; "POST"; "POUND"; "PRESS"; "PRINCESS"; "PUMPKIN";
  "PUPIL"; "PYRAMID"; "QUEEN"; "QUILL"; "RABBIT"; "RACKET"; "RAY";
  "REVOLUTION"; "RING"; "ROBIN"; "ROCK"; "ROME"; "ROOT"; "ROSE"; "ROULETTE";
  "ROUND"; "ROW"; "ROYAL"; "RUBBER"; "RULE"; "SATELLITE"; "SATURN"; "SCALE";
  "SCHOOL"; "SCIENTIST"; "SCORPION"; "SCREEN"; "SCUBA"; "SEAL"; "SERVER";
  "SHADOW"; "SHAKESPEARE"; "SHARK"; "SHIP"; "SHOE"; "SHOP"; "SHOT"; "SINK";
  "SKATE"; "SKI"; "SKULL"; "SLIP"; "SLUG"; "SMUGGLER"; "SNOW"; "SNOWMAN";
  "SOCK"; "SOLDIER"; "SOUL"; "SPACE"; "SPELL"; "SPIDER"; "SPIKE"; "SPINE";
  "SPOT"; "SPRING"; "SPY"; "SQUARE"; "STADIUM"; "STAFF"; "STAMP"; "STAR";
  "STATE"; "STICK"; "STOCK"; "STORM"; "STOVE"; "STRAW"; "STREAM"; "STRIKE";
  "STRING"; "SUB"; "SUIT"; "SUPERHERO"; "SWING"; "SWITCH"; "TABLE"; "TABLET";
  "TAG"; "TAIL"; "TAP"; "TASTE"; "THIEF"; "THUMB"; "TICK"; "TIE"; "TIGER";
  "TIME"; "TOKYO"; "TOOTH"; "TORCH"; "TOWER"; "TRACK"; "TRAIN"; "TRIANGLE";
  "TRIP"; "TRUNK"; "TUBE"; "TURKEY"; "UNDERTAKER"; "UNICORN"; "VACUUM";
  "VAN"; "VET"; "WAKE"; "WALL"; "WAR"; "WASHER"; "WASHINGTON"; "WATCH";
  "WATER"; "WAVE"; "WEB"; "WELL"; "WHALE"; "WHIP"; "WIND"; "WITCH"; "WIZARD";
  "WOLF"; "WOOD"; "WOOL"; "WORLD"; "WORM"; "YARD"
].

(** ** Game state *)

Inductive Team := RED | BLUE.

Inductive CardType :=
| TeamCard (t : Team)
| NEUTRAL
| ASSASSIN
| UNKNOWN.

#[global] Instance Team_eq_dec : EqDecision Team.
Proof. solve_decision. Defined.

#[global] Instance CardType_eq_dec : EqDecision CardType.
Proof. solve_decision. Defined.

(** ['BLUE' if game.turn == 'RED' else 'RED'] *)
Definition other_team (t : Team) : Team :=
  match t with RED => BLUE | BLUE => RED end.

Record CodenamesGame := mkGame {
  board_size : Z;
  words : list string;
  board : list (list string);
  card_types : gmap string CardType;
  revealed : gset string;
  turn : Team;
  red_remaining : Z;
  blue_remaining : Z;
  game_over : bool;
  winner : option Team
}.

(** [CodenamesGame.__init__] *)
Definition new_game : CodenamesGame :=
  {| board_size := 5;
     words := [];
     board := [];
     card_types := ∅;
     revealed := ∅;
     turn := RED;
     red_remaining := 9;
     blue_remaining := 8;
     game_over := false;
     winner := None |}.

(** What [setup_board] draws from [random]: the 25-word sample, the team
    chosen to start and the final shuffle of the assignment list.  (The
    shuffle of line 80 is overwritten before it is read.) *)
Record Draw := mkDraw {
  sampled : list string;
  first_team : Team;
  shuffled : list CardType
}.

(** [['RED'] * r + ['BLUE'] * b + ['NEUTRAL'] * 7 + ['ASSASSIN'] * 1] *)
Definition assignments (r b : nat) : list CardType :=
  repeat (TeamCard RED) r ++ repeat (TeamCard BLUE) b
    ++ repeat NEUTRAL 7 ++ repeat ASSASSIN 1.

Definition card_assignments_for (first : Team) : list CardType :=
  match first with
  | RED => assignments 9 8
  | BLUE => assignments 8 9
  end.

(** The guarantees of [random.sample] (distinct positions of the
    population, the requested length) and [random.shuffle] (a
    rearrangement). *)
Definition sample_of (pool : list string) (k : nat) (s : list string) : Prop :=
  ∃ idx : list nat,
    NoDup idx ∧ length idx = k ∧
    Forall2 (fun i w => pool !! i = Some w) idx s.

Definition valid_draw (g : CodenamesGame) (d : Draw) : Prop :=
  sample_of WORD_POOL (Z.to_nat (board_size g ^ 2)) (sampled d) ∧
  Permutation (card_assignments_for (first_team d)) (shuffled d).

(** [sum(1 for ct in l if ct == c)] *)
Definition tally (c : CardType) (l : list CardType) : Z :=
  Z.of_nat (length (filter (fun ct => ct = c) l)).

(** The grid [[words[i*n + j] for j in range(n)] for i in range(n)].  The
    sample has [n * n] words, so no index is out of range (where Python
    would raise, the default below is never used). *)
Definition grid (n : nat) (ws : list string) : list (list string) :=
  map (fun i => map (fun j => default "" (ws !! (i * n + j)%nat)) (seq 0 n))
      (seq 0 n).

(** [for idx, word in enumerate(words): card_types[word] = assignment[idx]];
    the two lists have the same length (25), so pairing them loses
    nothing. *)
Definition assign_cards (ws : list string) (cs : list CardType)
  : gmap string CardType :=
  foldl (fun m wc => <[wc.1 := wc.2]> m) ∅ (zip ws cs).

(** [CodenamesGame.setup_board] *)
Definition setup_board (g : CodenamesGame) (d : Draw) : CodenamesGame :=
  let ws := sampled d in
  let card_assignments := shuffled d in
  {| board_size := board_size g;
     words := ws;
     board := grid (Z.to_nat (board_size g)) ws;
     card_types := assign_cards ws card_assignments;
     revealed := ∅;
     turn := first_team d;
     red_remaining := tally (TeamCard RED) card_assignments;
     blue_remaining := tally (TeamCard BLUE) card_assignments;
     game_over := false;
     winner := None |}.

(** Attribute assignments on a game object. *)
Definition set_revealed (v : gset string) (g : CodenamesGame) :=
  mkGame (board_size g) (words g) (board g) (card_types g) v (turn g)
         (red_remaining g) (blue_remaining g) (game_over g) (winner g).

Definition set_turn (v : Team) (g : CodenamesGame) :=
  mkGame (board_size g) (words g) (board g) (card_types g) (revealed g) v
         (red_remaining g) (blue_remaining g) (game_over g) (winner g).

Definition set_red_remaining (v : Z) (g : CodenamesGame) :=
  mkGame (board_size g) (words g) (board g) (card_types g) (revealed g)
         (turn g) v (blue_remaining g) (game_over g) (winner g).

Definition set_blue_remaining (v : Z) (g : CodenamesGame) :=
  mkGame (board_size g) (words g) (board g) (card_types g) (revealed g)
         (turn g) (red_remaining g) v (game_over g) (winner g).

Definition set_game_over (v : bool) (g : CodenamesGame) :=
  mkGame (board_size g) (words g) (board g) (card_types g) (revealed g)
         (turn g) (red_remaining g) (blue_remaining g) v (winner g).

Definition set_winner (v : option Team) (g : CodenamesGame) :=
  mkGame (board_size g) (words g) (board g) (card_types g) (revealed g)
         (turn g) (red_remaining g) (blue_remaining g) (game_over g) v.

(** [CodenamesGame.get_card_type] *)
Definition get_card_type (g : CodenamesGame) (word : string) : CardType :=
  default UNKNOWN (card_types g !! word).

(** [CodenamesGame.reveal_card]: the game after the call and the returned
    pair [(success, card_type)]. *)
Definition reveal_card (g : CodenamesGame) (word : string)
  : CodenamesGame * (bool * option CardType) :=
  if negb (Str.mem word (words g)) || bool_decide (word ∈ revealed g) then
    (g, (false, None))
  else
    let g := set_revealed ({[word]} ∪ revealed g) g in
    let card_type := get_card_type g word in
    let g :=
      if decide (card_type = TeamCard RED) then
        set_red_remaining (red_remaining g - 1) g
      else if decide (card_type = TeamCard BLUE) then
        set_blue_remaining (blue_remaining g - 1) g
      else g in
    (g, (true, Some card_type)).

(** [CodenamesGame.check_win_condition] *)
Definition check_win_condition (g : CodenamesGame) : option Team :=
  if red_remaining g =? 0 then Some RED
  else if blue_remaining g =? 0 then Some BLUE
  else None.

(** ** Spymaster policy *)

(** The association table of [AISpymaster._get_potential_clues], in the
    order of the dictionary literal. *)
Definition spymaster_associations : list (string * list string) := [
  ("animal", ["cat"; "dog"; "bear"; "tiger"; "lion"; "elephant"; "rabbit"]);
  ("body", ["hand"; "head"; "eye"; "foot"; "face"; "heart"]);
  ("nature", ["tree"; "forest"; "river"; "mountain"; "ocean"; "beach"]);
  ("building", ["house"; "school"; "hospital"; "bank"; "hotel"; "church"]);
  ("color", ["red"; "blue"; "green"; "yellow"; "black"; "white"]);
  ("food", ["apple"; "bread"; "cake"; "cheese"; "meat"]);
  ("sport", ["ball"; "game"; "player"; "team"; "field"]);
  ("water", ["water"; "ocean"; "river"; "lake"; "beach"; "fish"]);
  ("royal", ["king"; "queen"; "crown"; "royal"; "prince"]);
  ("war", ["soldier"; "war"; "gun"; "battle"; "army"]);
  ("space", ["moon"; "star"; "planet"; "space"; "rocket"]);
  ("music", ["song"; "music"; "piano"; "note"; "sound"]);
  ("time", ["clock"; "time"; "hour"; "minute"; "day"]);
  ("round", ["ball"; "circle"; "ring"; "round"; "wheel"]);
  ("sharp", ["knife"; "sword"; "needle"; "point"; "blade"])
].

(** [AISpymaster._get_potential_clues] *)
Definition _get_potential_clues (word : string) : list string :=
  let word_lower := Str.lower word in
  let potential :=
    fold_left
      (fun potential cw =>
         let '(category, ws) := cw in
         if Str.mem word_lower ws then
           (potential ++ [category])
             ++ List.filter (fun w => negb (String.eqb w word_lower)) ws
         else potential)
      spymaster_associations [] in
  let potential :=
    if Str.len word >? 4 then potential ++ [String.append (Str.take 4 word) "ING"]
    else potential in
  let potential :=
    if Str.contains "er" word_lower then
      potential ++ [Str.remove_er word_lower]
    else potential in
  firstn 5 potential.

(** The unrevealed cards of [team], in board order. *)
Definition team_words (team : Team) (g : CodenamesGame) : list string :=
  List.filter
    (fun word =>
       negb (bool_decide (word ∈ revealed g))
       && bool_decide (get_card_type g word = TeamCard team))
    (words g).

(** [clue_scores]: a dictionary from clue to the list of words it was
    proposed for, kept in insertion order. *)
Fixpoint add_score (clue word : string) (scores : list (string * list string))
  : list (string * list string) :=
  match scores with
  | [] => [(clue, [word])]
  | (c, ws) :: rest =>
      if String.eqb c clue then (c, ws ++ [word]) :: rest
      else (c, ws) :: add_score clue word rest
  end.

Definition clue_scores_of (tw : list string) : list (string * list string) :=
  fold_left
    (fun scores word =>
       fold_left (fun scores clue => add_score clue word scores)
                 (_get_potential_clues word) scores)
    tw [].

(** [len(set(l))] *)
Definition unique_count (l : list string) : Z :=
  Z.of_nat (List.length (nodup string_dec l)).

(** The search for the clue connecting the most words: the pair
    [(best_clue, best_count)] after the loop of lines 207-213. *)
Definition best_of (g : CodenamesGame) (tw : list string)
    (scores : list (string * list string)) : option string * Z :=
  fold_left
    (fun best cw =>
       let '(best_clue, best_count) := best in
       let '(clue, associated_words) := cw in
       if negb (Str.mem (Str.upper clue) (words g)) then
         let unique_words := unique_count associated_words in
         if (unique_words >? best_count)
            && (unique_words <=? Z.of_nat (List.length tw))
         then (Some clue, unique_words)
         else best
       else best)
    scores (None, 0).

(** Python truthiness of [best_clue]: not [None] and not empty. *)
Definition truthy (s : option string) : bool :=
  match s with
  | Some s => negb (String.eqb s "")
  | None => false
  end.

(** [AISpymaster.generate_clue] *)
Definition generate_clue (team : Team) (g : CodenamesGame) : string * Z :=
  let tw := team_words team g in
  match tw with
  | [] => ("PASS", 0)
  | first :: _ =>
      let '(best_clue, best_count) := best_of g tw (clue_scores_of tw) in
      if truthy best_clue && (best_count >? 0) then
        (Str.upper (default "" best_clue),
         Z.min best_count (Z.of_nat (List.length tw)))
      else (first, 1)
  end.

(** ** Operative policy *)

Record AIGuesser := mkGuesser {
  guesser_team : Team;
  recent_clue : option string;
  recent_count : Z
}.

(** The association table of [AIGuesser._score_word]. *)
Definition guesser_associations : list (string * list string) := [
  ("animal", ["cat"; "dog"; "bear"; "tiger"; "lion"; "elephant"]);
  ("body", ["hand"; "head"; "eye"; "foot"; "face"]);
  ("nature", ["tree"; "forest"; "river"; "mountain"]);
  ("water", ["water"; "ocean"; "river"; "beach"; "fish"]);
  ("royal", ["king"; "queen"; "crown"; "royal"]);
  ("round", ["ball"; "circle"; "ring"; "wheel"])
].

(** [AIGuesser._score_word] *)
Definition _score_word (clue word : string) : Z :=
  let score := 0 in
  if String.eqb clue word then 100
  else
    let score :=
      if Str.contains clue word || Str.contains word clue then score + 30
      else score in
    let overlap := Str.overlap clue word in
    let score := score + overlap * 5 in
    let length_diff := Z.abs (Str.len clue - Str.len word) in
    let score := score + Z.max 0 (10 - length_diff) in
    fold_left
      (fun score cw =>
         let '(category, ws) := cw in
         let score :=
           if String.eqb category clue && Str.mem word ws then score + 50
           else score in
         if Str.mem word ws && existsb (fun w => String.eqb w clue) ws
         then score + 30
         else score)
      guesser_associations score.

(** [scores[word] = score] on a dictionary kept in insertion order. *)
Fixpoint dict_set (k : string) (v : Z) (d : list (string * Z))
  : list (string * Z) :=
  match d with
  | [] => [(k, v)]
  | (k', v') :: rest =>
      if String.eqb k' k then (k', v) :: rest
      else (k', v') :: dict_set k v rest
  end.

(** [sorted(items, key=lambda x: x[1], reverse=True)]: a stable sort by
    decreasing score (items of equal score keep their order). *)
Fixpoint insert_desc (x : string * Z) (l : list (string * Z))
  : list (string * Z) :=
  match l with
  | [] => [x]
  | y :: rest =>
      if y.2 >? x.2 then y :: insert_desc x rest else x :: y :: rest
  end.

Definition sorted_desc (l : list (string * Z)) : list (string * Z) :=
  fold_right insert_desc [] l.

(** [AIGuesser.make_guess]: the guesser after the call (it records the
    clue it was given) and the returned word, or [None] for a pass. *)
Definition make_guess (self : AIGuesser) (g : CodenamesGame)
    (clue : string) (count : Z) : AIGuesser * option string :=
  let self := mkGuesser (guesser_team self) (Some clue) count in
  if String.eqb clue "PASS" || (count =? 0) then (self, None)
  else
    let available :=
      List.filter (fun w => negb (bool_decide (w ∈ revealed g))) (words g) in
    match available with
    | [] => (self, None)
    | _ =>
        let clue_lower := Str.lower clue in
        let scores :=
          fold_left
            (fun scores word =>
               dict_set word (_score_word clue_lower (Str.lower word)) scores)
            available [] in
        match sorted_desc scores with
        | (best_word, best_score) :: _ =>
            if best_score >? 0 then (self, Some best_word) else (self, None)
        | [] => (self, None)
        end
    end.

(** ** Turn orchestrator *)

(** The two decisions [play_game] asks for.  In mode 1 both come from the
    AI classes; in modes 2 and 3 the player's team gets one of them from
    [player_input_guess] or [player_input_clue], that is, from the
    terminal.  A decision may depend on the game and on when it is asked
    (the turn number and the number of guesses already made), which is
    enough to describe any sequence of answers. *)
Record Players := mkPlayers {
  give_clue : Z -> CodenamesGame -> Team -> string * Z;
  give_guess : Z -> Z -> CodenamesGame -> string -> Z -> option string
}.

(** Mode 1: [spymaster.generate_clue(game)] and
    [guesser.make_guess(game, clue, count)] for the team to move. *)
Definition ai_players : Players :=
  {| give_clue := fun _ g team => generate_clue team g;
     give_guess := fun _ _ g clue count =>
       (make_guess (mkGuesser (turn g) None 0) g clue count).2 |}.

(** Modes 2 and 3: the answers typed by the player replace the AI's for
    the player's team. *)
Definition players_of_mode (mode : Z) (player_team : Team) (typed : Players)
  : Players :=
  {| give_clue := fun n g team =>
       if (mode =? 3) && bool_decide (team = player_team)
       then give_clue typed n g team
       else give_clue ai_players n g team;
     give_guess := fun n k g clue count =>
       if (mode =? 2) && bool_decide (turn g = player_team)
       then give_guess typed n k g clue count
       else give_guess ai_players n k g clue count |}.

Definition max_turns : Z := 50.

(** The points of [play_game] between which the game object changes. *)
Inductive Config :=
| AtTurn (turn_count : Z) (g : CodenamesGame)
    (* head of the outer [while], line 501 *)
| AtGuess (turn_count : Z) (g : CodenamesGame) (clue : string) (count : Z)
    (guesses_made : Z) (turn_ended turn_already_switched : bool)
    (* head of the inner [while], line 549 *)
| AfterGuesses (turn_count : Z) (g : CodenamesGame)
    (turn_ended turn_already_switched : bool)
    (* after the inner [while], line 613 *)
| Finished (turn_count : Z) (g : CodenamesGame).
    (* after the outer [while], line 625 *)

(** One iteration of the inner [while] whose condition holds
    (lines 550-609). *)
Definition guess_once (P : Players) (turn_count : Z) (g : CodenamesGame)
    (clue : string) (count : Z) (guesses_made : Z)
    (turn_ended turn_already_switched : bool) : Config :=
  let max_guesses := count + 1 in
  match give_guess P turn_count guesses_made g clue count with
  | None => AfterGuesses turn_count g true turn_already_switched
  | Some guess =>
      let '(g, (success, card_type)) := reveal_card g guess in
      if negb success then AfterGuesses turn_count g true turn_already_switched
      else
        let guesses_made := guesses_made + 1 in
        match check_win_condition g with
        | Some w =>
            AfterGuesses turn_count (set_winner (Some w) (set_game_over true g))
                         turn_ended turn_already_switched
        | None =>
            if negb (bool_decide (card_type = Some (TeamCard (turn g)))) then
              if bool_decide (card_type = Some ASSASSIN) then
                let other := other_team (turn g) in
                AfterGuesses turn_count
                             (set_winner (Some other) (set_game_over true g))
                             turn_ended turn_already_switched
              else
                AfterGuesses turn_count (set_turn (other_team (turn g)) g)
                             true true
            else
              let turn_ended :=
                if guesses_made >=? max_guesses then true else turn_ended in
              AtGuess turn_count g clue count guesses_made
                      turn_ended turn_already_switched
        end
  end.

(** One move of [play_game] from one point to the next. *)
Definition step (P : Players) (c : Config) : Config :=
  match c with
  | AtTurn turn_count g =>
      if negb (game_over g) && (turn_count <? max_turns) then
        let turn_count := turn_count + 1 in
        let '(clue, count) := give_clue P turn_count g (turn g) in
        if String.eqb clue "PASS" then
          AtTurn turn_count (set_turn (other_team (turn g)) g)
        else AtGuess turn_count g clue count 0 false false
      else Finished turn_count g
  | AtGuess turn_count g clue count guesses_made te tas =>
      if (guesses_made <? count + 1) && negb (game_over g) && negb te then
        guess_once P turn_count g clue count guesses_made te tas
      else AfterGuesses turn_count g te tas
  | AfterGuesses turn_count g te tas =>
      if negb (game_over g) && te && negb tas then
        AtTurn turn_count (set_turn (other_team (turn g)) g)
      else AtTurn turn_count g
  | Finished turn_count g => Finished turn_count g
  end.

Fixpoint run (P : Players) (n : nat) (c : Config) : Config :=
  match n with
  | O => c
  | S n => run P n (step P c)
  end.

(** [play_game] up to the start of its loop: a fresh game, set up. *)
Definition start (d : Draw) : Config := AtTurn 0 (setup_board new_game d).

Definition config_game (c : Config) : CodenamesGame :=
  match c with
  | AtTurn _ g | AtGuess _ g _ _ _ _ _ | AfterGuesses _ g _ _ | Finished _ g => g
  end.

Definition config_turns (c : Config) : Z :=
  match c with
  | AtTurn n _ | AtGuess n _ _ _ _ _ _ | AfterGuesses n _ _ _ | Finished n _ => n
  end.

(** The configurations [play_game] passes through, whoever plays. *)
Inductive reached (P : Players) : Config -> Prop :=
| reached_start d : valid_draw new_game d -> reached P (start d)
| reached_step c : reached P c -> reached P (step P c).

(** ** Vocabulary of the properties

    Counting functions, reachable games, the parts of the score and the
    concrete boards and players used in the statements below. *)

(** A draw that [setup_board] can make (the first 25 pool words, BLUE to
    start), used for the concrete runs below. *)
Definition demo_draw : Draw :=
  {| sampled := firstn 25 WORD_POOL;
     first_team := BLUE;
     shuffled := rev (assignments 8 9) |}.

Definition demo_game : CodenamesGame := setup_board new_game demo_draw.

(** [reveal_card] called on each word of a list in turn. *)
Definition reveal_all (g : CodenamesGame) (ws : list string) : CodenamesGame :=
  foldl (fun g w => (reveal_card g w).1) g ws.

(** The demo board after every RED card has been revealed. *)
Definition red_found : CodenamesGame :=
  reveal_all demo_game (team_words RED demo_game).

(** The reading under which a team wins when its opponent's count is 0. *)
Definition wins_on_opponent_count (g : CodenamesGame) : Prop :=
  (check_win_condition g = Some RED ↔ blue_remaining g = 0) ∧
  (check_win_condition g = Some BLUE ↔ red_remaining g = 0) ∧
  (0 < red_remaining g ∧ 0 < blue_remaining g → check_win_condition g = None).

(** The count a team still has to find. *)
Definition remaining (t : Team) (g : CodenamesGame) : Z :=
  match t with
  | RED => red_remaining g
  | BLUE => blue_remaining g
  end.

(** The number of board words whose card is [c]. *)
Definition count_role (c : CardType) (g : CodenamesGame) : Z :=
  Z.of_nat (length (filter (fun w => get_card_type g w = c) (words g))).

(** The number of board words of team [t] that are not revealed. *)
Definition unrevealed_count (t : Team) (g : CodenamesGame) : Z :=
  Z.of_nat
    (length
       (filter (fun w => get_card_type g w = TeamCard t ∧ w ∉ revealed g)
               (words g))).

(** The games obtained from [setup_board] by any number of [reveal_card]
    calls, whatever the words asked for. *)
Inductive reachable : CodenamesGame -> Prop :=
| reachable_setup g0 d :
    board_size g0 = 5 → valid_draw g0 d → reachable (setup_board g0 d)
| reachable_reveal g word :
    reachable g → reachable (reveal_card g word).1.

(** What the remaining counts are meant to track. *)
Definition counts_agree (g : CodenamesGame) : Prop :=
  red_remaining g = unrevealed_count RED g ∧
  blue_remaining g = unrevealed_count BLUE g.

(** Whether the search of lines 204-215 ends with a usable clue. *)
Definition association_found (team : Team) (g : CodenamesGame) : bool :=
  let tw := team_words team g in
  let '(best_clue, best_count) := best_of g tw (clue_scores_of tw) in
  truthy best_clue && (best_count >? 0).

(** A draw on which no RED word suggests any clue: RED starts and holds
    the nine words BED ... FALL. *)
Definition quiet_draw : Draw :=
  {| sampled :=
       ["BED"; "BOOK"; "CODE"; "COOK"; "DROP"; "DUCK"; "EGG"; "FAIR"; "FALL";
        "FAN"; "FILE"; "FILM"; "FIRE"; "FLY"; "FORK"; "GAS"; "GOLD"; "HAT";
        "HAWK"; "HOLE"; "HORN"; "ICE"; "ICON"; "IRON"; "JACK"];
     first_team := RED;
     shuffled := assignments 9 8 |}.

Definition quiet_game : CodenamesGame := setup_board new_game quiet_draw.

(** The same, with the pool word PASS as RED's first card. *)
Definition pass_draw : Draw :=
  {| sampled :=
       ["PASS"; "BOOK"; "CODE"; "COOK"; "DROP"; "DUCK"; "EGG"; "FAIR"; "FALL";
        "FAN"; "FILE"; "FILM"; "FIRE"; "FLY"; "FORK"; "GAS"; "GOLD"; "HAT";
        "HAWK"; "HOLE"; "HORN"; "ICE"; "ICON"; "IRON"; "JACK"];
     first_team := RED;
     shuffled := assignments 9 8 |}.

Definition pass_game : CodenamesGame := setup_board new_game pass_draw.

(** The position of a word in a list. *)
Fixpoint index_of (w : string) (l : list string) : nat :=
  match l with
  | [] => 0
  | x :: rest => if String.eqb x w then 0 else S (index_of w rest)
  end.

(** The parts of the composite score, named as the design describes
    them. *)
Definition substring_part (clue word : string) : Z :=
  if Str.contains clue word || Str.contains word clue then 30 else 0.

Definition overlap_part (clue word : string) : Z := 5 * Str.overlap clue word.

Definition length_part (clue word : string) : Z :=
  Z.max 0 (10 - Z.abs (Str.len clue - Str.len word)).

(** The bonus of one category: 50 when the clue names the category and the
    word is listed in it, and 30 when the clue and the word are both
    listed in it. *)
Definition bonus_in (clue word : string) (cw : string * list string) : Z :=
  (if String.eqb cw.1 clue && Str.mem word cw.2 then 50 else 0)
  + (if Str.mem word cw.2 && existsb (fun w => String.eqb w clue) cw.2
     then 30 else 0).

Definition bonus_over (table : list (string * list string))
    (clue word : string) : Z :=
  fold_right Z.add 0 (map (bonus_in clue word) table).

Definition category_bonus : string → string → Z :=
  bonus_over guesser_associations.

(** The score [make_guess] gives a board word for a clue: both are put in
    lower case first. *)
Definition guess_score (clue word : string) : Z :=
  _score_word (Str.lower clue) (Str.lower word).

(** Every string the table mentions as a category or as a member, and
    every member. *)
Definition table_clues (table : list (string * list string)) : list string :=
  flat_map (fun cw => cw.1 :: cw.2) table.

Definition table_words (table : list (string * list string)) : list string :=
  flat_map snd table.

Definition bonus_value (b : Z) : bool :=
  (b =? 0) || (b =? 30) || (b =? 50) || (b =? 80).

(** The composite as the design states it, at one clue and one word:
    100 on an exact match, never more than 100, and otherwise the sum of
    the three lexical parts and a category bonus that is absent or
    between 30 and 50. *)
Definition scored_as_stated (clue word : string) : Prop :=
  let c := Str.lower clue in
  let w := Str.lower word in
  (c = w → guess_score clue word = 100) ∧
  guess_score clue word ≤ 100 ∧
  (c ≠ w →
   ∃ bonus, (bonus = 0 ∨ 30 ≤ bonus ≤ 50) ∧
     guess_score clue word =
       substring_part c w + overlap_part c w + length_part c w + bonus).

(** While the game is not over, no winner is recorded ... *)
Definition no_winner_yet (g : CodenamesGame) : Prop :=
  game_over g = false → winner g = None.

(** ... and no count has reached 0. *)
Definition nobody_done (g : CodenamesGame) : Prop :=
  game_over g = false → check_win_condition g = None.

(** Both teams passing every turn: the loop runs its 50 turns and ends
    without a winner. *)
Definition passing_players : Players :=
  {| give_clue := fun _ _ _ => ("PASS", 0);
     give_guess := fun _ _ _ _ _ => None |}.

(** An operative who is told FRUIT and picks APPLE, the assassin of the
    demo board, on BLUE's first turn. *)
Definition apple_players : Players :=
  {| give_clue := fun _ _ _ => ("FRUIT", 1);
     give_guess := fun _ _ _ _ _ => Some "APPLE" |}.

(** ** Further vocabulary

    Used by the properties of the second part below. *)

(** The fields no [reveal_card] call touches. *)
Definition same_board (g g' : CodenamesGame) : Prop :=
  board_size g' = board_size g ∧ words g' = words g ∧
  board g' = board g ∧ card_types g' = card_types g ∧
  turn g' = turn g ∧ game_over g' = game_over g ∧ winner g' = winner g.

(** The unrevealed words, in board order: [available] in [make_guess] and
    in [player_input_guess]. *)
Definition available (g : CodenamesGame) : list string :=
  List.filter (fun w => negb (bool_decide (w ∈ revealed g))) (words g).

(** The team words for which [_get_potential_clues] proposes [clue], and
    how many distinct ones there are. *)
Definition linked (clue : string) (tw : list string) : list string :=
  List.filter (fun w => Str.mem clue (_get_potential_clues w)) tw.

Definition links (clue : string) (tw : list string) : Z :=
  unique_count (linked clue tw).

(** [clue_scores.get(clue)] *)
Fixpoint scores_get (clue : string) (scores : list (string * list string))
  : option (list string) :=
  match scores with
  | [] => None
  | (c, ws) :: rest =>
      if String.eqb c clue then Some ws else scores_get clue rest
  end.

(** The pairs (clue, word) in the order in which the two nested loops of
    lines 195-201 meet them. *)
Definition clue_events (tw : list string) : list (string * string) :=
  flat_map (fun w => map (fun c => (c, w)) (_get_potential_clues w)) tw.

(** The dictionary after a run of insertions: unique keys, one for each
    clue met, holding exactly the words it was met with. *)
Definition records (scores : list (string * list string))
    (events : list (string * string)) : Prop :=
  NoDup scores.*1 ∧
  (∀ c w, (c, w) ∈ events → c ∈ scores.*1) ∧
  (∀ c ws, scores_get c scores = Some ws → ∀ w, w ∈ ws ↔ (c, w) ∈ events).

(** Two game objects that differ at most in [turn], [game_over] and
    [winner], the fields [play_game] assigns directly. *)
Definition same_cards (g g' : CodenamesGame) : Prop :=
  board_size g' = board_size g ∧ words g' = words g ∧
  board g' = board g ∧ card_types g' = card_types g ∧
  revealed g' = revealed g ∧
  red_remaining g' = red_remaining g ∧ blue_remaining g' = blue_remaining g.

(** A game of [play_game] is a set-up board after some reveals, up to the
    three fields above. *)
Definition in_play (g : CodenamesGame) : Prop :=
  ∃ g', reachable g' ∧ same_cards g' g.

(** A recorded winner has found all its cards, or the assassin is
    revealed. *)
Definition winner_earned (g : CodenamesGame) : Prop :=
  ∀ t, winner g = Some t →
       remaining t g = 0 ∨
       ∃ w, w ∈ revealed g ∧ get_card_type g w = ASSASSIN.

(** The outcome fields go together, and a winner is never recorded without
    cause. *)
Definition outcome_ok (g : CodenamesGame) : Prop :=
  (game_over g = true ↔ ∃ t, winner g = Some t) ∧ winner_earned g.

(** A clue provider that announces a negative count. *)
Definition minus_players : Players :=
  {| give_clue := fun _ _ _ => ("FRUIT", -1);
     give_guess := fun _ _ _ _ _ => Some "APPLE" |}.

(** ** Terminal input

    What [input()] delivers: the next line typed, or an exception.  The
    lines still to come form a list; [input()] on the empty list is
    [EOFError], and [Interrupt] stands for [KeyboardInterrupt], which the
    callers treat alike. *)

Inductive Key :=
| Line (s : string)
| Interrupt.

Module Term.

(** The ASCII characters [str.strip()] removes: tab, line feed, vertical
    tab, form feed, carriage return, the four separators 28-31 and the
    space. *)
Definition is_space (c : ascii) : bool :=
  let n := N_of_ascii c in
  (((9 <=? n) && (n <=? 13)) || ((28 <=? n) && (n <=? 32)))%N.

Fixpoint lstrip (s : string) : string :=
  match s with
  | String c t => if is_space c then lstrip t else s
  | EmptyString => EmptyString
  end.

Definition reverse (s : string) : string :=
  string_of_list_ascii (List.rev (list_ascii_of_string s)).

(** [s.strip()] *)
Definition strip (s : string) : string :=
  reverse (lstrip (reverse (lstrip s))).

End Term.

(** [player_input_guess]: the answer and the lines left unread.  The
    prompts it prints are not modelled. *)
Fixpoint player_input_guess (g : CodenamesGame) (clue : string) (count : Z)
    (stdin : list Key) : option string * list Key :=
  match stdin with
  | [] => (None, [])
  | Interrupt :: rest => (None, rest)
  | Line s :: rest =>
      let guess := Str.upper (Term.strip s) in
      if String.eqb guess "PASS" || String.eqb guess "" then (None, rest)
      else if negb (Str.mem guess (words g)) then
        player_input_guess g clue count rest
      else if bool_decide (guess ∈ revealed g) then
        player_input_guess g clue count rest
      else (Some guess, rest)
  end.

Section Clue_input.
(** [int(s)] is the interpreter's: [None] stands for [ValueError]. *)
Context (int_of : string → option Z).

(** The inner loop of [player_input_clue] (lines 408-418), entered once
    the clue word is accepted. *)
Fixpoint read_count (clue_input : string) (stdin : list Key)
  : (string * Z) * list Key :=
  match stdin with
  | [] => (("PASS", 0), [])
  | Interrupt :: rest => (("PASS", 0), rest)
  | Line s :: rest =>
      match int_of (Term.strip s) with
      | Some count =>
          if (1 <=? count) && (count <=? 9) then ((clue_input, count), rest)
          else read_count clue_input rest
      | None => read_count clue_input rest
      end
  end.

(** [player_input_clue] *)
Fixpoint player_input_clue (g : CodenamesGame) (team : Team)
    (stdin : list Key) : (string * Z) * list Key :=
  match stdin with
  | [] => (("PASS", 0), [])
  | Interrupt :: rest => (("PASS", 0), rest)
  | Line s :: rest =>
      let clue_input := Str.upper (Term.strip s) in
      if String.eqb clue_input "" then player_input_clue g team rest
      else if String.eqb clue_input "PASS" then (("PASS", 0), rest)
      else if Str.mem clue_input (words g) then player_input_clue g team rest
      else read_count clue_input rest
  end.

(** The player's side of [play_game]: at each call the function reads
    whatever is still to come on the terminal at that moment. *)
Definition human_players (clue_stdin : Z → list Key)
    (guess_stdin : Z → Z → list Key) : Players :=
  {| give_clue := fun n g team =>
       (player_input_clue g team (clue_stdin n)).1;
     give_guess := fun n k g clue count =>
       (player_input_guess g clue count (guess_stdin n k)).1 |}.

(** The providers [play_game] uses in a given mode. *)
Definition mode_players (mode : Z) (player_team : Team)
    (clue_stdin : Z → list Key) (guess_stdin : Z → Z → list Key) : Players :=
  players_of_mode mode player_team (human_players clue_stdin guess_stdin).
End Clue_input.


(** [get_team_selection] *)
Fixpoint get_team_selection (stdin : list Key) : Team * list Key :=
  match stdin with
  | [] => (RED, [])
  | Interrupt :: rest => (RED, rest)
  | Line s :: rest =>
      let choice := Term.strip s in
      if String.eqb choice "1" then (RED, rest)
      else if String.eqb choice "2" then (BLUE, rest)
      else get_team_selection rest
  end.

(** A reading of decimal digits, enough to run the examples. *)
Definition digit_of (s : string) : option Z :=
  if String.eqb s "" then None
  else
    fold_left
      (fun acc c =>
         let n := N_of_ascii c in
         match acc with
         | Some v =>
             if ((48 <=? n) && (n <=? 57))%N
             then Some (10 * v + Z.of_N (n - 48)) else None
         | None => None
         end)
      (list_ascii_of_string s) (Some 0).

(** ** [display_board]

    The text written to the terminal.  [board_size] is 5 in every game
    object, so the row letters [chr(65 + i)] stay within A-E. *)

From Stdlib Require Import DecimalString.

Module Show.

Definition newline : string := String (ascii_of_N 10) EmptyString.

(** [c * n] for a one-character string [c]. *)
Definition times (c : ascii) (n : nat) : string :=
  string_of_list_ascii (repeat c n).

(** [str(n)] for an integer. *)
Definition of_Z (n : Z) : string := NilZero.string_of_int (Z.to_int n).

(** [f"{s:3}"] pads a string on the right, [f"{n:2}"] an integer on the
    left; neither cuts. *)
Definition pad_right (w : nat) (s : string) : string :=
  String.append s (times " " (w - String.length s)).

Definition pad_left (w : nat) (s : string) : string :=
  String.append (times " " (w - String.length s)) s.

Definition of_team (t : Team) : string :=
  match t with RED => "RED" | BLUE => "BLUE" end.

(** [symbols.get(card_type, '[?]')] *)
Definition symbol (c : CardType) : string :=
  match c with
  | TeamCard RED => "[R]"
  | TeamCard BLUE => "[B]"
  | NEUTRAL => "[N]"
  | ASSASSIN => "[X]"
  | UNKNOWN => "[?]"
  end.

(** All the values, or [None] if one is missing. *)
Fixpoint collect {A} (l : list (option A)) : option (list A) :=
  match l with
  | [] => Some []
  | None :: _ => None
  | Some x :: rest =>
      match collect rest with
      | Some xs => Some (x :: xs)
      | None => None
      end
  end.

End Show.

(** What is printed for one card (lines 153-165). *)
Definition display_cell (g : CodenamesGame) (show_all : bool) (word : string)
  : string :=
  let name := Show.pad_right 3 (Str.take 3 word) in
  if show_all || bool_decide (word ∈ revealed g) then
    String.append (Show.symbol (get_card_type g word)) (String.append name " ")
  else
    String.append " ? " (String.append name " ").

(** One row of the board (lines 149-166); [None] when [self.board[i][j]]
    is out of range and Python raises [IndexError]. *)
Definition display_row (g : CodenamesGame) (show_all : bool) (i : nat)
  : option string :=
  let n := Z.to_nat (board_size g) in
  match
    Show.collect
      (map (fun j =>
              match board g !! i with
              | Some row => option_map (display_cell g show_all) (row !! j)
              | None => None
              end)
           (seq 0 n))
  with
  | Some cells =>
      Some (String.append
              (String (ascii_of_nat (65 + i)) "  ")
              (String.append (String.concat "" cells) Show.newline))
  | None => None
  end.

(** [CodenamesGame.display_board]: everything it prints, or [None] when
    it raises [IndexError]. *)
Definition display_board (g : CodenamesGame) (show_all : bool)
  : option string :=
  let n := Z.to_nat (board_size g) in
  let rule := Show.times "=" 70 in
  let head :=
    String.concat ""
      [Show.newline; rule; Show.newline;
       "CODENAMES BOARD - Turn: "; Show.of_team (turn g); Show.newline;
       "Red remaining: "; Show.of_Z (red_remaining g);
       " | Blue remaining: "; Show.of_Z (blue_remaining g); Show.newline;
       rule; Show.newline; Show.newline;
       "   ";
       String.concat ""
         (map (fun j =>
                 String.append " "
                   (String.append
                      (Show.pad_left 2 (Show.of_Z (Z.of_nat j + 1))) " "))
              (seq 0 n));
       Show.newline] in
  match Show.collect (map (display_row g show_all) (seq 0 n)) with
  | Some rows =>
      Some (String.append head
              (String.append (String.concat "" rows) Show.newline))
  | None => None
  end.

(** The game with another role map. *)
Definition set_card_types (v : gmap string CardType) (g : CodenamesGame) :=
  mkGame (board_size g) (words g) (board g) v (revealed g) (turn g)
         (red_remaining g) (blue_remaining g) (game_over g) (winner g).

(** ** A measure of what is left of an AI game

    Whether the team to move holds the pool word PASS, the one word whose
    use as a fallback clue makes [play_game] skip the turn; and twice the
    number of hidden cards, plus one in that case. *)
Definition owns_PASS (g : CodenamesGame) : bool :=
  bool_decide (get_card_type g "PASS" = TeamCard (turn g)).

Definition turns_left (g : CodenamesGame) : Z :=
  2 * (25 - Z.of_nat (size (revealed g))) + (if owns_PASS g then 1 else 0).

(** * Properties *)

(** ** Membership and string helpers *)

Lemma mem_elem_of (w : string) (l : list string) :
  Str.mem w l = true ↔ w ∈ l.
Proof.
  unfold Str.mem. rewrite existsb_exists, list_elem_of_In. split.
  - intros (x & Hin & Heq). apply String.eqb_eq in Heq. by subst.
  - intros Hin. exists w. split; [done | apply String.eqb_refl].
Qed.

Lemma mem_false (w : string) (l : list string) :
  Str.mem w l = false ↔ w ∉ l.
Proof.
  rewrite <- mem_elem_of. destruct (Str.mem w l); split; congruence.
Qed.

(** ** [check_win_condition] *)

(** C1, as stated, fails: once the eight RED cards of the demo board are
    revealed, [red_remaining] is 0, [blue_remaining] is still 9, and the
    reported winner is RED, not BLUE. *)
Lemma check_win_condition_not_opponent_count :
  red_remaining red_found = 0 ∧ blue_remaining red_found = 9 ∧
  check_win_condition red_found = Some RED ∧
  ¬ wins_on_opponent_count red_found.
Proof.
  assert (Hr : red_remaining red_found = 0) by (vm_compute; reflexivity).
  assert (Hb : blue_remaining red_found = 9) by (vm_compute; reflexivity).
  assert (Hw : check_win_condition red_found = Some RED)
    by (vm_compute; reflexivity).
  repeat split; try assumption.
  intros (Hred & _ & _). apply Hred in Hw. rewrite Hb in Hw. discriminate.
Qed.

(** C1 (amended): [check_win_condition] reports the team whose own count
    is 0, RED first: RED exactly when [red_remaining] is 0, BLUE exactly
    when [red_remaining] is not 0 and [blue_remaining] is 0, and nobody
    exactly when neither count is 0. *)
Theorem check_win_condition_own_count (g : CodenamesGame) :
  (check_win_condition g = Some RED ↔ red_remaining g = 0) ∧
  (check_win_condition g = Some BLUE ↔
     red_remaining g ≠ 0 ∧ blue_remaining g = 0) ∧
  (check_win_condition g = None ↔
     red_remaining g ≠ 0 ∧ blue_remaining g ≠ 0).
Proof.
  unfold check_win_condition.
  destruct (Z.eqb_spec (red_remaining g) 0) as [Hr | Hr];
    destruct (Z.eqb_spec (blue_remaining g) 0) as [Hb | Hb];
    repeat split; intros; try congruence; try tauto;
    match goal with H : _ ∧ _ |- _ => destruct H; congruence end.
Qed.

(** ** [reveal_card] *)

Lemma reveal_card_rejected (g : CodenamesGame) (word : string) :
  word ∉ words g ∨ word ∈ revealed g →
  reveal_card g word = (g, (false, None)).
Proof.
  intros H. unfold reveal_card.
  destruct (Str.mem word (words g)) eqn:Hm; simpl; [| done].
  apply mem_elem_of in Hm. destruct H as [H | H]; [done |].
  by rewrite bool_decide_eq_true_2.
Qed.

Lemma reveal_card_applied (g : CodenamesGame) (word : string) :
  word ∈ words g → word ∉ revealed g →
  reveal_card g word =
    (let g1 := set_revealed ({[word]} ∪ revealed g) g in
     match get_card_type g word with
     | TeamCard RED => set_red_remaining (red_remaining g - 1) g1
     | TeamCard BLUE => set_blue_remaining (blue_remaining g - 1) g1
     | _ => g1
     end,
     (true, Some (get_card_type g word))).
Proof.
  intros Hin Hnew. unfold reveal_card.
  apply mem_elem_of in Hin. rewrite Hin. simpl.
  rewrite bool_decide_eq_false_2 by done.
  change (get_card_type (set_revealed _ g) word) with (get_card_type g word).
  destruct (get_card_type g word) as [[|]| | |]; reflexivity.
Qed.

(** What a [reveal_card] call keeps and what it changes, in the form the
    turn loop needs. *)
Lemma reveal_card_frame (g : CodenamesGame) (word : string) :
  let '(g', (success, card_type)) := reveal_card g word in
  (success = false → g' = g) ∧
  (success = true →
     game_over g' = game_over g ∧ winner g' = winner g ∧ turn g' = turn g ∧
     card_type = Some (get_card_type g word) ∧
     red_remaining g' =
       red_remaining g
       - (if decide (get_card_type g word = TeamCard RED) then 1 else 0) ∧
     blue_remaining g' =
       blue_remaining g
       - (if decide (get_card_type g word = TeamCard BLUE) then 1 else 0)).
Proof.
  destruct (decide (word ∈ words g ∧ word ∉ revealed g)) as [[Hin Hnew] | Hn].
  - rewrite reveal_card_applied by done. split; [discriminate |]. intros _.
    destruct (get_card_type g word) as [[|]| | |]; simpl;
      repeat split; try reflexivity; lia.
  - rewrite reveal_card_rejected; [split; [done | discriminate] |].
    destruct (decide (word ∈ words g)); [right | left; done].
    destruct (decide (word ∈ revealed g)); [done | tauto].
Qed.

(** C6: [reveal_card] answers "not applied" ([False, None]) exactly when
    the word is not on the board or is already revealed, and then returns
    the game unchanged; otherwise the word joins [revealed], the count of
    the card's team drops by one when the card is RED or BLUE and no count
    changes otherwise, every other field is kept, and the card's type is
    returned. *)
Theorem reveal_card_spec (g : CodenamesGame) (word : string) :
  let '(g', (success, card_type)) := reveal_card g word in
  (success = false ↔ word ∉ words g ∨ word ∈ revealed g) ∧
  (success = false → g' = g ∧ card_type = None) ∧
  (success = true →
     revealed g' = {[word]} ∪ revealed g ∧
     red_remaining g' =
       red_remaining g
       - (if decide (get_card_type g word = TeamCard RED) then 1 else 0) ∧
     blue_remaining g' =
       blue_remaining g
       - (if decide (get_card_type g word = TeamCard BLUE) then 1 else 0) ∧
     words g' = words g ∧ board g' = board g ∧
     board_size g' = board_size g ∧ card_types g' = card_types g ∧
     turn g' = turn g ∧ game_over g' = game_over g ∧
     winner g' = winner g ∧
     card_type = Some (get_card_type g word)).
Proof.
  destruct (decide (word ∈ words g)) as [Hin | Hin];
    [destruct (decide (word ∈ revealed g)) as [Hrev | Hrev] |].
  - rewrite reveal_card_rejected by tauto.
    split; [tauto |]. split; [done | discriminate].
  - rewrite reveal_card_applied by done.
    split; [split; [discriminate | tauto] |].
    split; [discriminate |]. intros _.
    destruct (get_card_type g word) as [[|]| | |]; simpl;
      repeat split; try reflexivity; lia.
  - rewrite reveal_card_rejected by tauto.
    split; [tauto |]. split; [done | discriminate].
Qed.

(** Asking for the same word again is refused and changes nothing. *)
Lemma reveal_card_twice (g : CodenamesGame) (word : string) :
  reveal_card (reveal_card g word).1 word
  = ((reveal_card g word).1, (false, None)).
Proof.
  apply reveal_card_rejected.
  destruct (decide (word ∈ words g ∧ word ∉ revealed g)) as [[Hin Hnew] | Hn].
  - right. rewrite reveal_card_applied by done.
    destruct (get_card_type g word) as [[|]| | |]; simpl;
      apply elem_of_union; left; by apply elem_of_singleton.
  - rewrite reveal_card_rejected.
    + destruct (decide (word ∈ words g)); [right | left; done].
      destruct (decide (word ∈ revealed g)); [done | tauto].
    + destruct (decide (word ∈ words g)); [right | left; done].
      destruct (decide (word ∈ revealed g)); [done | tauto].
Qed.

(** ** [setup_board] *)

Lemma WORD_POOL_NoDup : NoDup WORD_POOL.
Proof. apply (bool_decide_unpack _). vm_compute. reflexivity. Qed.

Lemma WORD_POOL_length : length WORD_POOL = 316%nat.
Proof. reflexivity. Qed.

Section Sampling.
Context (pool : list string) (Hpool : NoDup pool).

Lemma sample_of_length k s : sample_of pool k s → length s = k.
Proof.
  intros (idx & _ & Hlen & Hall).
  apply Forall2_length in Hall. congruence.
Qed.

Lemma sample_of_NoDup k s : sample_of pool k s → NoDup s.
Proof.
  intros (idx & Hidx & _ & Hall). apply NoDup_alt. intros i j w Hi Hj.
  destruct (Forall2_lookup_r _ _ _ _ _ Hall Hi) as (a & Ha & Hpa).
  destruct (Forall2_lookup_r _ _ _ _ _ Hall Hj) as (b & Hb & Hpb).
  assert (a = b) by exact (proj1 (NoDup_alt pool) Hpool a b w Hpa Hpb).
  subst b. exact (proj1 (NoDup_alt idx) Hidx i j a Ha Hb).
Qed.

Lemma sample_of_subseteq k s w : sample_of pool k s → w ∈ s → w ∈ pool.
Proof.
  intros (idx & _ & _ & Hall) Hw.
  apply list_elem_of_lookup in Hw as (i & Hi).
  destruct (Forall2_lookup_r _ _ _ _ _ Hall Hi) as (a & _ & Hpa).
  apply list_elem_of_lookup. eauto.
Qed.
End Sampling.

(** The dictionary built by the loop of lines 93-94. *)
Lemma assign_cards_from_notin ws cs (m : gmap string CardType) w :
  w ∉ ws →
  foldl (fun m wc => <[wc.1 := wc.2]> m) m (zip ws cs) !! w = m !! w.
Proof.
  revert cs m. induction ws as [| x ws IH]; intros [| c cs] m Hw; simpl;
    try done.
  apply not_elem_of_cons in Hw as [Hne Hw].
  rewrite IH by done. by rewrite lookup_insert_ne.
Qed.

Lemma assign_cards_from_lookup ws cs (m : gmap string CardType) :
  NoDup ws → length ws = length cs →
  Forall2
    (fun w c => foldl (fun m wc => <[wc.1 := wc.2]> m) m (zip ws cs) !! w
                = Some c)
    ws cs.
Proof.
  revert cs m. induction ws as [| x ws IH]; intros [| c cs] m Hnd Hlen;
    simpl in *; try discriminate; [constructor |].
  apply NoDup_cons in Hnd as [Hx Hnd]. constructor.
  - rewrite assign_cards_from_notin by done. apply lookup_insert_eq.
  - apply IH; [done | lia].
Qed.

Lemma assign_cards_dom ws cs :
  length ws = length cs →
  dom (assign_cards ws cs) = list_to_set ws.
Proof.
  unfold assign_cards. intros Hlen.
  assert (Hgen : ∀ m : gmap string CardType,
             dom (foldl (fun m wc => <[wc.1 := wc.2]> m) m (zip ws cs))
             = list_to_set ws ∪ dom m).
  { revert cs Hlen. induction ws as [| x ws IH]; intros [| c cs] Hlen m;
      simpl in *; try done.
    - symmetry. apply (left_id_L ∅ (∪)).
    - rewrite IH by lia. rewrite dom_insert_L.
      rewrite (assoc_L (∪)). f_equal. apply (comm_L (∪)). }
  rewrite Hgen, dom_empty_L. apply (right_id_L ∅ (∪)).
Qed.

Lemma tally_Permutation c l l' : Permutation l l' → tally c l = tally c l'.
Proof. intros H. unfold tally. by rewrite H. Qed.

Lemma count_by_lookup (role : string → CardType) (c : CardType) ws cs :
  Forall2 (fun w k => role w = k) ws cs →
  length (filter (fun w => role w = c) ws) = length (filter (fun k => k = c) cs).
Proof.
  induction 1 as [| w k ws cs Hwk _ IH]; [done |].
  rewrite !filter_cons. subst k.
  destruct (decide (role w = c)); simpl; by rewrite IH.
Qed.

Lemma setup_board_roles g0 d :
  NoDup (sampled d) → length (sampled d) = length (shuffled d) →
  Forall2 (fun w k => get_card_type (setup_board g0 d) w = k)
          (sampled d) (shuffled d).
Proof.
  intros Hnd Hlen. unfold get_card_type, setup_board, assign_cards. simpl.
  eapply Forall2_impl; [by apply assign_cards_from_lookup |].
  intros w k Hk. simpl in Hk. by rewrite Hk.
Qed.

Lemma setup_board_count_role g0 d c :
  NoDup (sampled d) → length (sampled d) = length (shuffled d) →
  count_role c (setup_board g0 d) = tally c (shuffled d).
Proof.
  intros Hnd Hlen. unfold count_role, tally. f_equal.
  by apply count_by_lookup, setup_board_roles.
Qed.

Lemma valid_draw_facts g0 d :
  board_size g0 = 5 → valid_draw g0 d →
  NoDup (sampled d) ∧ length (sampled d) = 25%nat ∧
  length (shuffled d) = 25%nat ∧
  (∀ c, tally c (shuffled d) = tally c (card_assignments_for (first_team d))).
Proof.
  intros Hsize [Hs Hp]. rewrite Hsize in Hs.
  split; [by eapply sample_of_NoDup, Hs; apply WORD_POOL_NoDup |].
  split; [by eapply sample_of_length, Hs |].
  split.
  - rewrite <- Hp. by destruct (first_team d).
  - intros c. symmetry. by apply tally_Permutation.
Qed.

(** C5: after [setup_board] the board has 25 distinct words, all from the
    pool, and the role map is defined on exactly these words; one word is
    the ASSASSIN, 7 are NEUTRAL, 9 belong to the team drawn to start and 8
    to the other team; [turn] is the starting team, nothing is revealed,
    the remaining counts are 9 for the starting team and 8 for the other,
    and the game is not over. *)
Theorem setup_board_spec (g0 : CodenamesGame) (d : Draw) :
  board_size g0 = 5 → valid_draw g0 d →
  let g := setup_board g0 d in
  let starting := first_team d in
  length (words g) = 25%nat ∧ NoDup (words g) ∧
  (∀ w, w ∈ words g → w ∈ WORD_POOL) ∧
  dom (card_types g) = list_to_set (words g) ∧
  count_role ASSASSIN g = 1 ∧
  count_role NEUTRAL g = 7 ∧
  count_role (TeamCard starting) g = 9 ∧
  count_role (TeamCard (other_team starting)) g = 8 ∧
  turn g = starting ∧
  revealed g = ∅ ∧
  remaining starting g = 9 ∧
  remaining (other_team starting) g = 8 ∧
  game_over g = false ∧ winner g = None.
Proof.
  intros Hsize Hd.
  destruct (valid_draw_facts g0 d Hsize Hd) as (Hnd & Hlen & Hlen' & Htally).
  assert (Hll : length (sampled d) = length (shuffled d)) by congruence.
  cbv zeta.
  rewrite !setup_board_count_role by done. rewrite !Htally.
  split; [exact Hlen |]. split; [exact Hnd |].
  split.
  { intros w Hw. destruct Hd as [Hs _].
    eapply sample_of_subseteq; [exact Hs | exact Hw]. }
  split; [by apply assign_cards_dom |].
  unfold remaining. simpl. rewrite !Htally.
  destruct (first_team d); vm_compute; repeat split; reflexivity.
Qed.

Lemma demo_draw_valid : valid_draw new_game demo_draw.
Proof.
  split.
  - exists (seq 0 25). split; [apply NoDup_seq |]. split; [reflexivity |].
    vm_compute. repeat constructor.
  - unfold demo_draw. simpl. apply Permutation_rev.
Qed.

Lemma setup_board_spec_witness :
  let g := setup_board new_game demo_draw in
  length (words g) = 25%nat ∧ NoDup (words g) ∧
  (∀ w, w ∈ words g → w ∈ WORD_POOL) ∧
  dom (card_types g) = list_to_set (words g) ∧
  count_role ASSASSIN g = 1 ∧
  count_role NEUTRAL g = 7 ∧
  count_role (TeamCard BLUE) g = 9 ∧
  count_role (TeamCard RED) g = 8 ∧
  turn g = BLUE ∧
  revealed g = ∅ ∧
  remaining BLUE g = 9 ∧
  remaining RED g = 8 ∧
  game_over g = false ∧ winner g = None.
Proof.
  exact (setup_board_spec new_game demo_draw eq_refl demo_draw_valid).
Defined.

(** ** The remaining counts *)

Section Counting.
Context (role : string → CardType) (c : CardType).

(** Revealing one more word of a duplicate-free board lowers the count
    of unrevealed cards of kind [c] by one if the word is of that kind,
    and leaves it alone otherwise. *)
Lemma unrevealed_absent (R : gset string) (word : string) (ws : list string) :
  word ∉ ws →
  filter (fun w => role w = c ∧ w ∉ {[word]} ∪ R) ws
  = filter (fun w => role w = c ∧ w ∉ R) ws.
Proof.
  induction ws as [| x ws IH]; [done |]. intros Hx.
  apply not_elem_of_cons in Hx as [Hne Hx].
  rewrite !filter_cons, IH by done.
  destruct (decide (role x = c ∧ x ∉ {[word]} ∪ R)) as [H1 | H1];
    destruct (decide (role x = c ∧ x ∉ R)) as [H2 | H2];
    try reflexivity; exfalso.
  - apply H2. destruct H1 as [? H1]. split; [done |].
    intros ?. apply H1, elem_of_union. by right.
  - apply H1. destruct H2 as [? H2]. split; [done |].
    intros [Hin | Hin]%elem_of_union; [| done].
    apply elem_of_singleton in Hin. congruence.
Qed.

Lemma unrevealed_after_reveal (R : gset string) (word : string) (ws : list string) :
  NoDup ws → word ∈ ws → word ∉ R →
  (length (filter (fun w => role w = c ∧ w ∉ {[word]} ∪ R) ws)
   + (if decide (role word = c) then 1 else 0))%nat
  = length (filter (fun w => role w = c ∧ w ∉ R) ws).
Proof.
  induction ws as [| x ws IH]; intros Hnd Hin Hnew.
  { by apply elem_of_nil in Hin. }
  apply NoDup_cons in Hnd as [Hx Hnd]. rewrite !filter_cons.
  destruct (decide (x = word)) as [-> | Hne].
  - rewrite unrevealed_absent by done.
    rewrite decide_False.
    2:{ intros [_ H]. apply H, elem_of_union. left.
        by apply elem_of_singleton. }
    destruct (decide (role word = c)) as [Hc | Hc].
    + rewrite decide_True by done. simpl. lia.
    + rewrite decide_False by tauto. lia.
  - apply elem_of_cons in Hin as [Heq | Hin]; [congruence |].
    specialize (IH Hnd Hin Hnew).
    destruct (decide (role x = c ∧ x ∉ R)) as [H2 | H2].
    + rewrite decide_True.
      2:{ destruct H2 as [? H2]. split; [done |].
          intros [Hs | Hr]%elem_of_union; [| done].
          apply elem_of_singleton in Hs. congruence. }
      simpl. lia.
    + rewrite decide_False; [exact IH |].
      intros [? H1]. apply H2. split; [done |].
      intros ?. apply H1, elem_of_union. by right.
Qed.
End Counting.

Lemma counts_agree_setup g0 d :
  board_size g0 = 5 → valid_draw g0 d →
  NoDup (words (setup_board g0 d)) ∧ counts_agree (setup_board g0 d).
Proof.
  intros Hsize Hd.
  destruct (valid_draw_facts g0 d Hsize Hd) as (Hnd & Hlen & Hlen' & _).
  assert (Hll : length (sampled d) = length (shuffled d)) by congruence.
  split; [exact Hnd |].
  assert (Hcount : ∀ t, unrevealed_count t (setup_board g0 d)
                        = tally (TeamCard t) (shuffled d)).
  { intros t. rewrite <- (setup_board_count_role g0 d) by done.
    unfold unrevealed_count, count_role. do 2 f_equal.
    apply list_filter_iff. intros w. simpl.
    split; [tauto | intros ?; split; [done | apply not_elem_of_empty]]. }
  split; rewrite Hcount; reflexivity.
Qed.

Lemma counts_agree_reveal g word :
  NoDup (words g) → counts_agree g →
  NoDup (words (reveal_card g word).1) ∧ counts_agree (reveal_card g word).1.
Proof.
  intros Hnd [Hred Hblue].
  destruct (decide (word ∈ words g)) as [Hin | Hin];
    [destruct (decide (word ∈ revealed g)) as [Hrev | Hrev] |];
    try (rewrite reveal_card_rejected by tauto; by split).
  rewrite reveal_card_applied by done.
  pose proof (unrevealed_after_reveal (get_card_type g) (TeamCard RED)
                (revealed g) word (words g) Hnd Hin Hrev) as HR.
  pose proof (unrevealed_after_reveal (get_card_type g) (TeamCard BLUE)
                (revealed g) word (words g) Hnd Hin Hrev) as HB.
  unfold counts_agree, unrevealed_count in *.
  destruct (get_card_type g word) as [[|]| | |] eqn:Hrole; simpl;
    (split; [exact Hnd |]);
    unfold get_card_type in *; simpl;
    repeat match type of HR with context [decide ?P] =>
             destruct (decide P); try congruence end;
    repeat match type of HB with context [decide ?P] =>
             destruct (decide P); try congruence end;
    split; lia.
Qed.

(** C4: in every game reached from [setup_board] by [reveal_card] calls,
    [red_remaining] is the number of board words whose card is RED and
    that are not revealed, and [blue_remaining] the same for BLUE. *)
Theorem remaining_counts_unrevealed (g : CodenamesGame) :
  reachable g →
  red_remaining g = unrevealed_count RED g ∧
  blue_remaining g = unrevealed_count BLUE g.
Proof.
  intros Hreach.
  assert (Hinv : NoDup (words g) ∧ counts_agree g).
  { induction Hreach as [g0 d Hsize Hd | g word _ [Hnd Hc]].
    - by apply counts_agree_setup.
    - by apply counts_agree_reveal. }
  exact (proj2 Hinv).
Qed.

Lemma reveal_all_reachable g ws :
  reachable g → reachable (reveal_all g ws).
Proof.
  revert g. induction ws as [| w ws IH]; intros g Hg; [exact Hg |].
  apply IH. by constructor.
Qed.

Lemma red_found_reachable : reachable red_found.
Proof.
  apply reveal_all_reachable. constructor; [reflexivity |].
  apply demo_draw_valid.
Qed.

Lemma remaining_counts_unrevealed_witness :
  red_remaining red_found = unrevealed_count RED red_found ∧
  blue_remaining red_found = unrevealed_count BLUE red_found.
Proof. exact (remaining_counts_unrevealed red_found red_found_reachable). Defined.

(** ** [generate_clue] *)

Lemma team_words_count team g :
  Z.of_nat (length (team_words team g)) = unrevealed_count team g.
Proof.
  unfold team_words, unrevealed_count. f_equal.
  induction (words g) as [| w ws IH]; [done |].
  rewrite filter_cons. simpl.
  destruct (decide (get_card_type g w = TeamCard team ∧ w ∉ revealed g))
    as [[Hc Hr] | Hn].
  - rewrite (bool_decide_eq_false_2 _ Hr), (bool_decide_eq_true_2 _ Hc).
    simpl. by rewrite IH.
  - destruct (bool_decide_reflect (w ∈ revealed g)) as [Hr | Hr]; simpl;
      [exact IH |].
    rewrite bool_decide_eq_false_2 by tauto. exact IH.
Qed.

Lemma team_words_on_board team g w :
  w ∈ team_words team g → w ∈ words g ∧ w ∉ revealed g.
Proof.
  unfold team_words. rewrite list_elem_of_In, filter_In.
  intros [Hin Hb]. apply andb_prop in Hb as [Hb _].
  apply negb_true_iff, bool_decide_eq_false in Hb.
  split; [by apply list_elem_of_In | done].
Qed.

(** The search only ever keeps a clue that passed the board test. *)
Lemma best_of_off_board g tw scores c n :
  best_of g tw scores = (Some c, n) →
  Str.mem (Str.upper c) (words g) = false.
Proof.
  unfold best_of.
  assert (Hgen : ∀ best,
            (∀ c n, best = (Some c, n) →
                    Str.mem (Str.upper c) (words g) = false) →
            ∀ c n,
              fold_left
                (fun best cw =>
                   let '(best_clue, best_count) := best in
                   let '(clue, associated_words) := cw in
                   if negb (Str.mem (Str.upper clue) (words g)) then
                     let unique_words := unique_count associated_words in
                     if (unique_words >? best_count)
                        && (unique_words <=? Z.of_nat (List.length tw))
                     then (Some clue, unique_words)
                     else best
                   else best)
                scores best = (Some c, n) →
              Str.mem (Str.upper c) (words g) = false).
  { induction scores as [| [clue ws] scores IH]; intros best Hbest c' n' Hf.
    - simpl in Hf. eauto.
    - simpl in Hf. eapply IH; [| exact Hf].
      destruct best as [bc bn]. intros c2 n2.
      destruct (Str.mem (Str.upper clue) (words g)) eqn:Hm; simpl;
        [by apply Hbest |].
      destruct ((unique_count ws >? bn)
                && (unique_count ws <=? Z.of_nat (List.length tw)));
        [| by apply Hbest].
      intros [= <- _]. exact Hm. }
  intros Hf. eapply Hgen; [| exact Hf]. intros ? ? [=].
Qed.

(** C8: the count returned by [generate_clue] lies between 0 and the
    number of the team's unrevealed words, and the answer is the pass
    sentinel [("PASS", 0)] exactly when the team has no unrevealed word. *)
Theorem generate_clue_count (team : Team) (g : CodenamesGame) :
  let '(text, count) := generate_clue team g in
  (0 ≤ count ≤ unrevealed_count team g) ∧
  ((text, count) = ("PASS", 0) ↔ unrevealed_count team g = 0).
Proof.
  rewrite <- team_words_count. unfold generate_clue.
  destruct (team_words team g) as [| first rest] eqn:Htw.
  - simpl. split; [lia | tauto].
  - destruct (best_of g (first :: rest) (clue_scores_of (first :: rest)))
      as [best_clue best_count].
    cbn [length]. rewrite Nat2Z.inj_succ.
    destruct (truthy best_clue && (best_count >? 0)) eqn:Hok.
    + apply andb_prop in Hok as [_ Hpos]. apply Z.gtb_lt in Hpos.
      split; [lia |]. split; [| lia].
      intros [= _ Hmin]. lia.
    + split; [lia |]. split; [| lia]. intros [= _ ?].
Qed.

Lemma quiet_draw_valid : valid_draw new_game quiet_draw.
Proof.
  split; [| reflexivity].
  exists (map (fun w => index_of w WORD_POOL) (sampled quiet_draw)).
  split; [apply (bool_decide_unpack _); vm_compute; reflexivity |].
  split; [reflexivity |].
  vm_compute. repeat constructor.
Qed.

Lemma pass_draw_valid : valid_draw new_game pass_draw.
Proof.
  split; [| reflexivity].
  exists (map (fun w => index_of w WORD_POOL) (sampled pass_draw)).
  split; [apply (bool_decide_unpack _); vm_compute; reflexivity |].
  split; [reflexivity |].
  vm_compute. repeat constructor.
Qed.

(** The fallback can produce the text PASS with count 1, which is not the
    sentinel pair; [play_game], which looks at the text only, then skips
    the turn although RED has nine words to find. *)
Lemma fallback_text_PASS :
  generate_clue RED pass_game = ("PASS", 1) ∧
  unrevealed_count RED pass_game = 9 ∧
  step ai_players (start pass_draw) = AtTurn 1 (set_turn BLUE pass_game).
Proof. repeat split; vm_compute; reflexivity. Qed.

(** C2, as stated, fails: on the quiet board the RED spymaster's clue is
    the board word BED itself, with count 1. *)
Lemma generate_clue_gives_board_word :
  generate_clue RED quiet_game = ("BED", 1) ∧
  "BED" ∈ words quiet_game ∧
  ¬ (generate_clue RED quiet_game ≠ ("PASS", 0) →
     (generate_clue RED quiet_game).1 ∉ words quiet_game).
Proof.
  assert (Hc : generate_clue RED quiet_game = ("BED", 1))
    by (vm_compute; reflexivity).
  assert (Hin : "BED" ∈ words quiet_game) by (simpl; apply list_elem_of_here).
  split; [exact Hc |]. split; [exact Hin |].
  intros H. rewrite Hc in H. apply H; [discriminate | exact Hin].
Qed.

(** C2 (amended): when the team has an unrevealed word, either the search
    over the association table ends with a usable clue, and then the text
    returned is not a board word; or it does not, and then the answer is
    the fallback: the team's first unrevealed word, which is on the board,
    with count 1. *)
Theorem generate_clue_board_word (team : Team) (g : CodenamesGame) :
  team_words team g ≠ [] →
  let '(text, count) := generate_clue team g in
  if association_found team g then text ∉ words g
  else head (team_words team g) = Some text ∧ count = 1 ∧ text ∈ words g.
Proof.
  intros Hne. unfold generate_clue, association_found.
  destruct (team_words team g) as [| first rest] eqn:Htw; [done |].
  destruct (best_of g (first :: rest) (clue_scores_of (first :: rest)))
    as [best_clue best_count] eqn:Hbest.
  destruct (truthy best_clue && (best_count >? 0)) eqn:Hok.
  - destruct best_clue as [c |]; [| discriminate]. simpl.
    apply mem_false. eapply best_of_off_board, Hbest.
  - split; [reflexivity |]. split; [reflexivity |].
    apply (team_words_on_board team g). rewrite Htw. apply list_elem_of_here.
Qed.

Lemma generate_clue_board_word_witness :
  let '(text, count) := generate_clue RED quiet_game in
  if association_found RED quiet_game then text ∉ words quiet_game
  else head (team_words RED quiet_game) = Some text ∧ count = 1
       ∧ text ∈ words quiet_game.
Proof.
  apply (generate_clue_board_word RED quiet_game). vm_compute. discriminate.
Defined.

(** ** [make_guess] *)

Lemma insert_desc_Permutation x l : Permutation (x :: l) (insert_desc x l).
Proof.
  induction l as [| y l IH]; simpl; [reflexivity |].
  destruct (y.2 >? x.2); [| reflexivity].
  rewrite perm_swap. by constructor.
Qed.

Lemma sorted_desc_Permutation l : Permutation l (sorted_desc l).
Proof.
  induction l as [| x l IH]; simpl; [reflexivity |].
  rewrite <- insert_desc_Permutation. by constructor.
Qed.

Lemma dict_set_keys k v d k' v' :
  (k', v') ∈ dict_set k v d → k' = k ∨ k' ∈ d.*1.
Proof.
  induction d as [| [k0 v0] d IH]; simpl.
  - intros [= ? ?]%list_elem_of_singleton. by left.
  - destruct (String.eqb_spec k0 k) as [-> | Hne].
    + intros [[= ? ?] | Hin]%elem_of_cons; [by left |].
      right. right. apply list_elem_of_fmap. by exists (k', v').
    + intros [[= ? ?] | Hin]%elem_of_cons; [subst; right; left |].
      destruct (IH Hin) as [-> | ?]; [by left | right; by right].
Qed.

Lemma scores_keys (f : string → Z) ws d k v :
  (k, v) ∈ fold_left (fun scores word => dict_set word (f word) scores) ws d →
  k ∈ ws ∨ k ∈ d.*1.
Proof.
  revert d. induction ws as [| w ws IH]; intros d Hin; simpl in Hin.
  - right. apply list_elem_of_fmap. by exists (k, v).
  - destruct (IH _ Hin) as [? | Hk]; [left; by right |].
    apply list_elem_of_fmap in Hk as ([k1 v1] & -> & Hk). simpl.
    destruct (dict_set_keys _ _ _ _ _ Hk) as [-> | ?]; [left; left | by right].
Qed.

Lemma make_guess_available self g clue count w :
  (make_guess self g clue count).2 = Some w →
  w ∈ words g ∧ w ∉ revealed g.
Proof.
  unfold make_guess.
  destruct (String.eqb clue "PASS" || (count =? 0)); [discriminate |].
  set (available :=
         List.filter (fun w => negb (bool_decide (w ∈ revealed g))) (words g)).
  destruct available as [| a0 rest] eqn:Hav; [discriminate |].
  rewrite <- Hav.
  set (scores := fold_left _ available []).
  destruct (sorted_desc scores) as [| [best_word best_score] tl] eqn:Hs;
    [discriminate |].
  destruct (best_score >? 0); [| discriminate].
  intros [= <-].
  assert (Hin : (best_word, best_score) ∈ scores).
  { rewrite (sorted_desc_Permutation scores), Hs. apply list_elem_of_here. }
  apply scores_keys in Hin as [Hin | Hin]; [| by apply elem_of_nil in Hin].
  subst available. apply list_elem_of_In, filter_In in Hin as [Hin Hb].
  apply negb_true_iff, bool_decide_eq_false in Hb.
  split; [by apply list_elem_of_In | done].
Qed.

(** C10: a word returned by the AI operative is on the board and not yet
    revealed, so the [reveal_card] call that [play_game] makes with it
    succeeds: the invalid-guess branch is never taken on an AI guess. *)
Theorem make_guess_valid (self : AIGuesser) (g : CodenamesGame)
    (clue : string) (count : Z) (w : string) :
  (make_guess self g clue count).2 = Some w →
  w ∈ words g ∧ (w ∉ revealed g) ∧
  (reveal_card g w).2 = (true, Some (get_card_type g w)).
Proof.
  intros H. apply make_guess_available in H as [Hin Hnew].
  split; [exact Hin |]. split; [exact Hnew |].
  by rewrite reveal_card_applied.
Qed.

Lemma make_guess_valid_witness :
  "BEAR" ∈ words demo_game ∧ ("BEAR" ∉ revealed demo_game) ∧
  (reveal_card demo_game "BEAR").2
  = (true, Some (get_card_type demo_game "BEAR")).
Proof.
  apply (make_guess_valid (mkGuesser BLUE None 0) demo_game "ANIMAL" 2).
  vm_compute. reflexivity.
Defined.

(** The answer does not depend on what the guesser remembered. *)
Lemma make_guess_any_self s1 s2 g clue count :
  (make_guess s1 g clue count).2 = (make_guess s2 g clue count).2.
Proof.
  unfold make_guess.
  destruct (String.eqb clue "PASS" || (count =? 0)); [reflexivity |].
  destruct (List.filter _ (words g)); [reflexivity |].
  destruct (sorted_desc _) as [| [best_word best_score] tl]; [reflexivity |].
  destruct (best_score >? 0); reflexivity.
Qed.

(** In [play_game] with AI operatives, [success] is true after every
    guess. *)
Lemma ai_guess_reveals turn_count guesses_made g clue count w :
  give_guess ai_players turn_count guesses_made g clue count = Some w →
  (reveal_card g w).2 = (true, Some (get_card_type g w)).
Proof.
  intros H. apply make_guess_available in H as [Hin Hnew].
  by rewrite reveal_card_applied.
Qed.

(** ** [_score_word] *)

Lemma score_loop_sum table clue word score :
  fold_left
    (fun score cw =>
       let '(category, ws) := cw in
       let score :=
         if String.eqb category clue && Str.mem word ws then score + 50
         else score in
       if Str.mem word ws && existsb (fun w => String.eqb w clue) ws
       then score + 30
       else score)
    table score
  = score + bonus_over table clue word.
Proof.
  revert score. induction table as [| [category ws] table IH]; intros score.
  - unfold bonus_over. simpl. lia.
  - simpl. rewrite IH. unfold bonus_over, bonus_in. simpl.
    destruct (String.eqb category clue && Str.mem word ws);
      destruct (Str.mem word ws && existsb (fun w => String.eqb w clue) ws);
      lia.
Qed.

Lemma _score_word_parts clue word :
  _score_word clue word =
    if String.eqb clue word then 100
    else substring_part clue word + overlap_part clue word
         + length_part clue word + category_bonus clue word.
Proof.
  unfold _score_word. destruct (String.eqb clue word); [reflexivity |].
  rewrite score_loop_sum.
  unfold substring_part, overlap_part, length_part, category_bonus.
  destruct (Str.contains clue word || Str.contains word clue); lia.
Qed.

Lemma bonus_unknown_word table clue word :
  Str.mem word (table_words table) = false → bonus_over table clue word = 0.
Proof.
  unfold bonus_over, table_words, Str.mem.
  induction table as [| [category ws] table IH]; [reflexivity |].
  simpl. rewrite existsb_app. intros [Hw Hrest]%orb_false_elim.
  rewrite (IH Hrest). unfold bonus_in, Str.mem. simpl. rewrite Hw.
  by rewrite andb_false_r.
Qed.

Lemma bonus_unknown_clue table clue word :
  existsb (fun k => String.eqb k clue) (table_clues table) = false →
  bonus_over table clue word = 0.
Proof.
  unfold bonus_over, table_clues.
  induction table as [| [category ws] table IH]; [reflexivity |].
  simpl. intros [Hc Hrest]%orb_false_elim.
  rewrite existsb_app in Hrest. apply orb_false_elim in Hrest as [Hws Hrest].
  rewrite (IH Hrest). unfold bonus_in. simpl. rewrite Hc, Hws.
  by rewrite andb_false_r.
Qed.

Lemma category_bonus_known_values :
  forallb
    (fun k =>
       forallb
         (fun w => String.eqb k w || bonus_value (category_bonus k w))
         (table_words guesser_associations))
    (table_clues guesser_associations) = true.
Proof. vm_compute. reflexivity. Qed.

Lemma existsb_eqb_In (l : list string) (c : string) :
  existsb (fun k => String.eqb k c) l = true → In c l.
Proof.
  intros (k & Hin & Heq)%existsb_exists. apply String.eqb_eq in Heq.
  by subst.
Qed.

Lemma category_bonus_values clue word :
  clue ≠ word → bonus_value (category_bonus clue word) = true.
Proof.
  intros Hne.
  destruct (existsb (fun k => String.eqb k clue)
                    (table_clues guesser_associations)) eqn:Hc.
  2:{ unfold category_bonus. by rewrite bonus_unknown_clue. }
  destruct (Str.mem word (table_words guesser_associations)) eqn:Hw.
  2:{ unfold category_bonus. by rewrite bonus_unknown_word. }
  apply existsb_eqb_In in Hc.
  apply mem_elem_of, list_elem_of_In in Hw.
  pose proof category_bonus_known_values as Hall.
  rewrite forallb_forall in Hall. specialize (Hall clue Hc).
  rewrite forallb_forall in Hall. specialize (Hall word Hw).
  apply orb_prop in Hall as [Heq | Hv]; [| exact Hv].
  apply String.eqb_eq in Heq. contradiction.
Qed.

(** The number of shared characters is at most the number of distinct
    characters of the word. *)
Lemma overlap_le_chars clue word :
  Str.overlap clue word ≤ Z.of_nat (length (Str.chars word)).
Proof.
  unfold Str.overlap. apply inj_le. apply List.NoDup_incl_length.
  - apply List.NoDup_filter. apply List.NoDup_nodup.
  - intros c [_ Hc]%filter_In.
    by destruct (in_dec ascii_dec c (Str.chars word)).
Qed.

Lemma WORD_POOL_chars :
  forallb (fun word => (length (Str.chars (Str.lower word)) <=? 9)%nat)
          WORD_POOL = true.
Proof. vm_compute. reflexivity. Qed.

Lemma WORD_POOL_known_clues :
  forallb
    (fun k =>
       forallb (fun word => _score_word k (Str.lower word) <=? 100) WORD_POOL)
    (table_clues guesser_associations) = true.
Proof. vm_compute. reflexivity. Qed.

Lemma guess_score_pool_max clue word :
  In word WORD_POOL → guess_score clue word ≤ 100.
Proof.
  intros Hin. unfold guess_score.
  set (c := Str.lower clue). set (w := Str.lower word).
  destruct (existsb (fun k => String.eqb k c)
                    (table_clues guesser_associations)) eqn:Hc.
  - apply existsb_eqb_In in Hc.
    pose proof WORD_POOL_known_clues as Hall.
    rewrite forallb_forall in Hall. specialize (Hall c Hc).
    rewrite forallb_forall in Hall. specialize (Hall word Hin).
    by apply Z.leb_le in Hall.
  - rewrite _score_word_parts. destruct (String.eqb c w); [lia |].
    unfold category_bonus. rewrite bonus_unknown_clue by exact Hc.
    pose proof WORD_POOL_chars as Hch.
    rewrite forallb_forall in Hch. specialize (Hch word Hin).
    apply Nat.leb_le in Hch.
    pose proof (overlap_le_chars c w) as Hov. fold w in Hch.
    unfold substring_part, overlap_part, length_part.
    destruct (Str.contains c w || Str.contains w c); lia.
Qed.

(** C7, as stated, fails: for the clue WATER the board word BEACH, which
    is no exact match, gets 10 for two shared letters, 10 for equal length
    and a category bonus of 80 (50 because "water" names a category that
    lists "beach", and 30 because that category lists "water" too). *)
Lemma score_bonus_exceeds_fifty :
  guess_score "WATER" "BEACH" = 100 ∧
  category_bonus "water" "beach" = 80 ∧
  ¬ scored_as_stated "WATER" "BEACH".
Proof.
  split; [vm_compute; reflexivity |]. split; [vm_compute; reflexivity |].
  intros (_ & _ & H). destruct H as (bonus & Hrange & Hsum).
  - vm_compute. discriminate.
  - assert (Hs : guess_score "WATER" "BEACH" = 100)
      by (vm_compute; reflexivity).
    assert (Hp : substring_part (Str.lower "WATER") (Str.lower "BEACH")
                 + overlap_part (Str.lower "WATER") (Str.lower "BEACH")
                 + length_part (Str.lower "WATER") (Str.lower "BEACH") = 20)
      by (vm_compute; reflexivity).
    lia.
Qed.

(** Nor is 100 a bound for arbitrary strings: a long clue that contains
    the word scores 114. *)
Lemma score_above_hundred :
  guess_score "ABCDEFGHIJKLMNOP" "ABCDEFGHIJKLMNO" = 114.
Proof. vm_compute. reflexivity. Qed.

(** [_score_word] itself compares as written; the match is blind to case
    only because [make_guess] lowers both arguments first. *)
Lemma score_word_case_sensitive :
  _score_word "CAT" "cat" = 10 ∧ guess_score "CAT" "cat" = 100.
Proof. split; vm_compute; reflexivity. Qed.

(** C7 (amended): [_score_word] gives 100 to equal arguments, hence to a
    clue and a word that agree up to case once [make_guess] has lowered
    both; to any other pair it gives 30 for containment in either
    direction, plus 5 per shared distinct character, plus
    [max(0, 10 - |len(clue) - len(word)|)], plus the category bonus, which
    is 0, 30, 50 or 80 (50 and 30 add up when the clue names a category
    that lists both the word and the clue itself).  No word of the pool
    is scored above 100 by [make_guess], whatever the clue. *)
Theorem score_word_spec (clue word : string) :
  (clue = word → _score_word clue word = 100) ∧
  (clue ≠ word →
     _score_word clue word =
       substring_part clue word + overlap_part clue word
       + length_part clue word + category_bonus clue word ∧
     (category_bonus clue word = 0 ∨ category_bonus clue word = 30 ∨
      category_bonus clue word = 50 ∨ category_bonus clue word = 80)) ∧
  (Str.lower clue = Str.lower word → guess_score clue word = 100) ∧
  (In word WORD_POOL → guess_score clue word ≤ 100).
Proof.
  split; [| split; [| split]].
  - intros Heq. rewrite _score_word_parts.
    by rewrite (proj2 (String.eqb_eq _ _) Heq).
  - intros Hne. split.
    + rewrite _score_word_parts.
      by rewrite (proj2 (String.eqb_neq _ _) Hne).
    + pose proof (category_bonus_values _ _ Hne) as Hv.
      unfold bonus_value in Hv.
      repeat (apply orb_prop in Hv as [Hv | Hv]);
        apply Z.eqb_eq in Hv; tauto.
  - intros Heq. unfold guess_score. rewrite _score_word_parts.
    by rewrite (proj2 (String.eqb_eq _ _) Heq).
  - apply guess_score_pool_max.
Qed.

Lemma score_word_spec_witness :
  _score_word "animal" "cat" =
    substring_part "animal" "cat" + overlap_part "animal" "cat"
    + length_part "animal" "cat" + category_bonus "animal" "cat" ∧
  _score_word "cat" "cat" = 100 ∧
  guess_score "Cat" "CAT" = 100 ∧
  guess_score "ANIMAL" "CAT" ≤ 100.
Proof.
  split; [| split; [| split]].
  - apply (score_word_spec "animal" "cat"). discriminate.
  - apply (score_word_spec "cat" "cat"). reflexivity.
  - apply (score_word_spec "Cat" "CAT"). reflexivity.
  - apply (score_word_spec "ANIMAL" "CAT"). vm_compute. tauto.
Defined.

(** ** The turn loop *)

(** The case analysis of one guess, shared by the lemmas below: the
    answer of the operative, the result of [reveal_card], the win check
    and the card revealed. *)
Ltac guess_cases P g1 success card_type Hspec :=
  unfold guess_once;
  match goal with
  | |- context [give_guess P ?tc ?gm ?g ?clue ?count] =>
      destruct (give_guess P tc gm g clue count) as [guess |];
      [pose proof (reveal_card_frame g guess) as Hspec;
       destruct (reveal_card g guess) as [g1 [success card_type]];
       destruct success; simpl;
       [destruct (check_win_condition g1) eqn:Hcheck;
        [| destruct (bool_decide (card_type = Some (TeamCard (turn g1))));
           simpl;
           [| destruct (bool_decide (card_type = Some ASSASSIN))]]
       |]
      |]
  end.

Ltac step_cases P c :=
  destruct c as [tc g | tc g clue count gm te tas | tc g te tas | tc g];
  simpl;
  [destruct (negb (game_over g) && (tc <? max_turns)) eqn:Hcond;
   [destruct (give_clue P (tc + 1) g (turn g)) as [clue count];
    destruct (String.eqb clue "PASS") |]
  |destruct ((gm <? count + 1) && negb (game_over g) && negb te)
  |destruct (negb (game_over g) && te && negb tas)
  |].

Section Orchestrator.
Context (P : Players).

Lemma run_add n m c : run P (n + m) c = run P m (run P n c).
Proof. revert c. induction n as [| n IH]; intros c; simpl; [done | apply IH]. Qed.

Lemma run_finished n turn_count g :
  run P n (Finished turn_count g) = Finished turn_count g.
Proof. induction n as [| n IH]; simpl; [done | exact IH]. Qed.

Lemma reached_run n c : reached P c → reached P (run P n c).
Proof.
  revert c. induction n as [| n IH]; intros c Hc; simpl; [exact Hc |].
  apply IH. by constructor.
Qed.

Lemma guess_once_no_winner turn_count g clue count guesses_made te tas :
  no_winner_yet g →
  no_winner_yet
    (config_game (guess_once P turn_count g clue count guesses_made te tas)).
Proof.
  intros Hg. guess_cases P g1 success card_type Hspec;
    try exact Hg; try (intros Hf; discriminate Hf);
    destruct Hspec as (Hfail & Hok).
  - destruct (Hok eq_refl) as (Hover & Hwin & _).
    intros Hf. simpl in *. rewrite Hwin. apply Hg. by rewrite <- Hover.
  - destruct (Hok eq_refl) as (Hover & Hwin & _).
    intros Hf. simpl in *. rewrite Hwin. apply Hg. by rewrite <- Hover.
  - rewrite (Hfail eq_refl). exact Hg.
Qed.

Lemma guess_once_nobody_done turn_count g clue count guesses_made te tas :
  nobody_done g →
  nobody_done
    (config_game (guess_once P turn_count g clue count guesses_made te tas)).
Proof.
  intros Hg. guess_cases P g1 success card_type Hspec;
    try exact Hg; try (intros Hf; discriminate Hf);
    try (intros _; exact Hcheck).
  destruct Hspec as (Hfail & _).
  rewrite (Hfail eq_refl). exact Hg.
Qed.

Lemma guess_once_turns turn_count g clue count guesses_made te tas :
  config_turns (guess_once P turn_count g clue count guesses_made te tas)
  = turn_count.
Proof. guess_cases P g1 success card_type Hspec; reflexivity. Qed.

Lemma step_no_winner c :
  no_winner_yet (config_game c) → no_winner_yet (config_game (step P c)).
Proof.
  step_cases P c; intros Hg; try exact Hg. by apply guess_once_no_winner.
Qed.

Lemma step_nobody_done c :
  nobody_done (config_game c) → nobody_done (config_game (step P c)).
Proof.
  step_cases P c; intros Hg; try exact Hg. by apply guess_once_nobody_done.
Qed.

Lemma step_turns c :
  0 ≤ config_turns c ≤ max_turns → 0 ≤ config_turns (step P c) ≤ max_turns.
Proof.
  step_cases P c; intros Hc; rewrite ?guess_once_turns; simpl; try exact Hc.
  - apply andb_prop in Hcond as [_ Hlt]. apply Z.ltb_lt in Hlt. lia.
  - apply andb_prop in Hcond as [_ Hlt]. apply Z.ltb_lt in Hlt. lia.
Qed.

Lemma run_turns n c :
  0 ≤ config_turns c ≤ max_turns → 0 ≤ config_turns (run P n c) ≤ max_turns.
Proof.
  revert c. induction n as [| n IH]; intros c Hc; simpl; [exact Hc |].
  by apply IH, step_turns.
Qed.

Lemma start_nobody_done d :
  valid_draw new_game d → nobody_done (config_game (start d)).
Proof.
  intros Hd _.
  destruct (valid_draw_facts new_game d eq_refl Hd) as (_ & _ & _ & Htally).
  unfold check_win_condition, start, config_game, setup_board.
  cbn [red_remaining blue_remaining]. rewrite !Htally.
  by destruct (first_team d).
Qed.

Lemma reached_nobody_done c : reached P c → nobody_done (config_game c).
Proof.
  induction 1 as [d Hd | c _ IH];
    [by apply start_nobody_done | by apply step_nobody_done].
Qed.

(** C3: whenever, in a run of [play_game], the guess of the team to move
    reveals the ASSASSIN, the game is over at once and the other team is
    the recorded winner, whatever the remaining counts are (they are
    left as they were); the loops are left without any further clue,
    guess or reveal. *)
Theorem assassin_ends_game (turn_count : Z) (g g1 : CodenamesGame)
    (clue guess : string) (count guesses_made : Z) (te tas : bool) :
  reached P (AtGuess turn_count g clue count guesses_made te tas) →
  (guesses_made <? count + 1) && negb (game_over g) && negb te = true →
  give_guess P turn_count guesses_made g clue count = Some guess →
  reveal_card g guess = (g1, (true, Some ASSASSIN)) →
  let acting := turn g in
  let c := AtGuess turn_count g clue count guesses_made te tas in
  let g' := set_winner (Some (other_team acting)) (set_game_over true g1) in
  step P c = AfterGuesses turn_count g' te tas ∧
  game_over g' = true ∧
  winner g' = Some (other_team acting) ∧
  red_remaining g' = red_remaining g ∧
  blue_remaining g' = blue_remaining g ∧
  run P 3 c = Finished turn_count g'.
Proof.
  intros Hreach Hcond Hguess Hreveal. cbv zeta.
  pose proof (reached_nobody_done _ Hreach) as Hund. simpl in Hund.
  assert (Hover : game_over g = false).
  { apply andb_prop in Hcond as [Hcond _].
    apply andb_prop in Hcond as [_ Hcond]. by apply negb_true_iff. }
  pose proof (Hund Hover) as Hcheck.
  pose proof (reveal_card_frame g guess) as Hspec. rewrite Hreveal in Hspec.
  destruct Hspec as (_ & Hok).
  destruct (Hok eq_refl) as (Hover1 & _ & Hturn & Hrole & Hred & Hblue).
  injection Hrole as Hrole. rewrite <- Hrole in Hred, Hblue.
  rewrite decide_False in Hred by discriminate.
  rewrite decide_False in Hblue by discriminate.
  assert (Hcheck1 : check_win_condition g1 = None).
  { unfold check_win_condition in *. rewrite Hred, Hblue, !Z.sub_0_r.
    exact Hcheck. }
  assert (Hstep : step P (AtGuess turn_count g clue count guesses_made te tas)
                  = AfterGuesses turn_count
                      (set_winner (Some (other_team (turn g)))
                                  (set_game_over true g1)) te tas).
  { simpl. rewrite Hcond. unfold guess_once.
    rewrite Hguess, Hreveal. simpl. rewrite Hcheck1.
    by rewrite Hturn. }
  split; [exact Hstep |]. split; [reflexivity |]. split; [reflexivity |].
  split; [simpl; lia |]. split; [simpl; lia |].
  change (run P 3 ?c) with (step P (step P (step P c))).
  rewrite Hstep. reflexivity.
Qed.

(** The guessing loop is left after finitely many moves. *)
Lemma guessing_ends (k : nat) :
  ∀ turn_count g clue count guesses_made te tas,
    (Z.to_nat (count + 1 - guesses_made) ≤ k)%nat →
    no_winner_yet g →
    ∃ n g' te' tas',
      run P n (AtGuess turn_count g clue count guesses_made te tas)
      = AfterGuesses turn_count g' te' tas' ∧ no_winner_yet g'.
Proof.
  induction k as [| k IH]; intros tc g clue count gm te tas Hk Hg.
  - exists 1%nat, g, te, tas. split; [| exact Hg]. simpl.
    replace (gm <? count + 1) with false by (symmetry; apply Z.ltb_ge; lia).
    reflexivity.
  - destruct ((gm <? count + 1) && negb (game_over g) && negb te) eqn:Hcond.
    2:{ exists 1%nat, g, te, tas. split; [| exact Hg]. simpl.
        by rewrite Hcond. }
    pose proof (guess_once_no_winner tc g clue count gm te tas Hg) as Hnext.
    assert (Hshape :
              (∃ g' te' tas',
                 guess_once P tc g clue count gm te tas
                 = AfterGuesses tc g' te' tas') ∨
              (∃ g' te',
                 guess_once P tc g clue count gm te tas
                 = AtGuess tc g' clue count (gm + 1) te' tas)).
    { unfold guess_once.
      destruct (give_guess P tc gm g clue count) as [guess |]; [| eauto 6].
      destruct (reveal_card g guess) as [g1 [success card_type]].
      destruct success; simpl; [| eauto 6].
      destruct (check_win_condition g1); [eauto 6 |].
      destruct (bool_decide (card_type = Some (TeamCard (turn g1)))); simpl;
        [eauto 6 |].
      destruct (bool_decide (card_type = Some ASSASSIN)); eauto 6. }
    destruct Hshape as [(g' & te' & tas' & Heq) | (g' & te' & Heq)].
    + exists 1%nat, g', te', tas'. rewrite Heq in Hnext.
      split; [| exact Hnext]. simpl. by rewrite Hcond.
    + rewrite Heq in Hnext. simpl in Hnext.
      pose proof Hcond as Hcond'.
      apply andb_prop in Hcond as [Hcond _].
      apply andb_prop in Hcond as [Hlt _]. apply Z.ltb_lt in Hlt.
      destruct (IH tc g' clue count (gm + 1) te' tas) as (n & g2 & te2 & tas2 & Hrun & Hg2);
        [lia | exact Hnext |].
      exists (S n), g2, te2, tas2. split; [| exact Hg2].
      simpl. rewrite Hcond', Heq. exact Hrun.
Qed.
(** The turn loop is left after finitely many moves, with the turn
    counter within the ceiling. *)
Lemma turns_end (k : nat) :
  ∀ turn_count g,
    0 ≤ turn_count ≤ max_turns →
    (Z.to_nat (max_turns - turn_count) ≤ k)%nat →
    no_winner_yet g →
    ∃ n turn_count' g',
      run P n (AtTurn turn_count g) = Finished turn_count' g' ∧
      turn_count ≤ turn_count' ≤ max_turns ∧
      no_winner_yet g' ∧
      (game_over g' = false → turn_count' = max_turns).
Proof.
  induction k as [| k IH]; intros tc g Htc Hk Hg.
  - exists 1%nat, tc, g. simpl.
    replace (tc <? max_turns) with false by (symmetry; apply Z.ltb_ge; lia).
    rewrite andb_false_r. repeat split; try lia; try exact Hg.
  - destruct (negb (game_over g) && (tc <? max_turns)) eqn:Hcond.
    2:{ exists 1%nat, tc, g. simpl. rewrite Hcond.
        repeat split; try lia; try exact Hg.
        intros Hover. rewrite Hover in Hcond. simpl in Hcond.
        apply Z.ltb_ge in Hcond. lia. }
    pose proof Hcond as Hcond'.
    apply andb_prop in Hcond' as [_ Hlt]. apply Z.ltb_lt in Hlt.
    destruct (give_clue P (tc + 1) g (turn g)) as [clue count] eqn:Hclue.
    destruct (String.eqb clue "PASS") eqn:Hpass.
    + destruct (IH (tc + 1) (set_turn (other_team (turn g)) g))
        as (n & tc' & g' & Hrun & Hrange & Hg' & Hceil);
        [lia | lia | exact Hg |].
      exists (S n), tc', g'. simpl. rewrite Hcond, Hclue, Hpass.
      repeat split; try lia; assumption.
    + destruct (guessing_ends (Z.to_nat (count + 1)) (tc + 1) g clue count
                              0 false false)
        as (n1 & g1 & te1 & tas1 & Hrun1 & Hg1); [lia | exact Hg |].
      pose proof (step_no_winner (AfterGuesses (tc + 1) g1 te1 tas1) Hg1)
        as Hg2.
      assert (Hturn : ∃ g2, step P (AfterGuesses (tc + 1) g1 te1 tas1)
                            = AtTurn (tc + 1) g2) .
      { simpl. destruct (negb (game_over g1) && te1 && negb tas1); eauto. }
      destruct Hturn as (g2 & Hstep2). rewrite Hstep2 in Hg2. simpl in Hg2.
      destruct (IH (tc + 1) g2)
        as (n2 & tc' & g' & Hrun2 & Hrange & Hg' & Hceil);
        [lia | lia | exact Hg2 |].
      exists (S (n1 + S n2)), tc', g'.
      split; [| repeat split; try lia; assumption].
      cbn [run]. cbn [step]. rewrite Hcond, Hclue, Hpass.
      rewrite run_add, Hrun1. cbn [run]. rewrite Hstep2. exact Hrun2.
Qed.

(** C9: whatever the players answer, [play_game] leaves its loop after
    finitely many moves; the turn counter never exceeds [max_turns]
    (50); and when the loop is left with the game not over, which
    happens only at the ceiling, no winner is recorded. *)
Theorem play_game_terminates (d : Draw) :
  ∃ n turn_count g,
    run P n (start d) = Finished turn_count g ∧
    0 ≤ turn_count ≤ max_turns ∧
    (∀ m, 0 ≤ config_turns (run P m (start d)) ≤ max_turns) ∧
    (game_over g = false → turn_count = max_turns ∧ winner g = None).
Proof.
  destruct (turns_end (Z.to_nat max_turns) 0 (setup_board new_game d))
    as (n & tc & g & Hrun & Hrange & Hg & Hceil).
  - unfold max_turns. lia.
  - unfold max_turns. lia.
  - intros _. reflexivity.
  - exists n, tc, g. split; [exact Hrun |]. split; [lia |].
    split; [| intros Hover; split; [by apply Hceil | by apply Hg]].
    intros m. apply run_turns. simpl. unfold max_turns. lia.
Qed.
End Orchestrator.

Lemma all_pass_no_winner :
  ∃ g, run passing_players 51 (start demo_draw) = Finished 50 g ∧
       game_over g = false ∧ winner g = None.
Proof. eexists. split; [vm_compute; reflexivity | split; reflexivity]. Qed.

Lemma apple_is_assassin :
  reveal_card demo_game "APPLE"
  = (set_revealed {["APPLE"]} demo_game, (true, Some ASSASSIN)).
Proof. vm_compute. reflexivity. Qed.

Lemma assassin_ends_game_witness :
  let g' := set_winner (Some RED)
              (set_game_over true (set_revealed {["APPLE"]} demo_game)) in
  step apple_players (AtGuess 1 demo_game "FRUIT" 1 0 false false)
  = AfterGuesses 1 g' false false ∧
  game_over g' = true ∧
  winner g' = Some RED ∧
  red_remaining g' = red_remaining demo_game ∧
  blue_remaining g' = blue_remaining demo_game ∧
  run apple_players 3 (AtGuess 1 demo_game "FRUIT" 1 0 false false)
  = Finished 1 g'.
Proof.
  apply (assassin_ends_game apple_players 1 demo_game
           (set_revealed {["APPLE"]} demo_game) "FRUIT" "APPLE" 1 0
           false false).
  - apply (reached_step apple_players (start demo_draw)).
    apply reached_start, demo_draw_valid.
  - reflexivity.
  - reflexivity.
  - apply apple_is_assassin.
Defined.

(** Off the runs of [play_game] the order of the two tests shows: in a
    hand-made game that is still open although [blue_remaining] is 0, the
    win check of line 580 comes first and BLUE, the acting team, is
    recorded.  No run reaches such a game. *)
Lemma win_check_comes_first :
  let g := set_blue_remaining 0 demo_game in
  let c := AtGuess 1 g "FRUIT" 1 0 false false in
  winner (config_game (step apple_players c)) = Some BLUE ∧
  ∀ P, ¬ reached P c.
Proof.
  split; [vm_compute; reflexivity |].
  intros P Hreach. apply reached_nobody_done in Hreach.
  specialize (Hreach eq_refl). vm_compute in Hreach. discriminate.
Qed.

(** * Further properties *)

(** ** The game object between [setup_board] and the end of play *)

Lemma reveal_card_same_board (g : CodenamesGame) (word : string) :
  same_board g (reveal_card g word).1.
Proof.
  destruct (decide (word ∈ words g ∧ word ∉ revealed g)) as [[Hin Hnew] | Hn].
  - rewrite reveal_card_applied by done.
    destruct (get_card_type g word) as [[|]| | |]; simpl;
      repeat split; reflexivity.
  - rewrite reveal_card_rejected; [repeat split; reflexivity |].
    destruct (decide (word ∈ words g)); [right | left; done].
    destruct (decide (word ∈ revealed g)); [done | tauto].
Qed.

Lemma reveal_card_revealed (g : CodenamesGame) (word w : string) :
  w ∈ revealed (reveal_card g word).1 →
  w ∈ revealed g ∨ (w = word ∧ word ∈ words g).
Proof.
  destruct (decide (word ∈ words g ∧ word ∉ revealed g)) as [[Hin Hnew] | Hn].
  - assert (Hrev : revealed (reveal_card g word).1 = {[word]} ∪ revealed g).
    { rewrite reveal_card_applied by done.
      destruct (get_card_type g word) as [[|]| | |]; reflexivity. }
    rewrite Hrev. intros [Hw | Hw]%elem_of_union; [| by left].
    apply elem_of_singleton in Hw. right. by split.
  - rewrite reveal_card_rejected; [by left |].
    destruct (decide (word ∈ words g)); [right | left; done].
    destruct (decide (word ∈ revealed g)); [done | tauto].
Qed.

Lemma reachable_origin (g : CodenamesGame) :
  reachable g →
  ∃ g0 d,
    board_size g0 = 5 ∧ valid_draw g0 d ∧
    same_board (setup_board g0 d) g ∧
    (∀ w, w ∈ revealed g → w ∈ words g).
Proof.
  induction 1 as [g0 d Hsize Hd | g word _ (g0 & d & Hsize & Hd & Hsame & Hsub)].
  - exists g0, d. split; [done |]. split; [done |].
    split; [repeat split; reflexivity |].
    intros w Hw. by apply elem_of_empty in Hw.
  - exists g0, d. split; [done |]. split; [done |].
    pose proof (reveal_card_same_board g word) as Hstep.
    split.
    + unfold same_board in *.
      destruct Hsame as (H1 & H2 & H3 & H4 & H5 & H6 & H7).
      destruct Hstep as (K1 & K2 & K3 & K4 & K5 & K6 & K7).
      repeat split; congruence.
    + intros w Hw. destruct Hstep as (_ & Hwords & _). rewrite Hwords.
      apply reveal_card_revealed in Hw as [Hw | [-> Hw]]; [by apply Hsub | done].
Qed.

Lemma reachable_counts (g : CodenamesGame) :
  reachable g → NoDup (words g) ∧ counts_agree g.
Proof.
  induction 1 as [g0 d Hsize Hd | g word _ [Hnd Hc]].
  - by apply counts_agree_setup.
  - by apply counts_agree_reveal.
Qed.



Lemma filter_length_le {A} (P : A → Prop) `{∀ x, Decision (P x)}
    (Q : A → Prop) `{∀ x, Decision (Q x)} (l : list A) :
  (∀ x, P x → Q x) → (length (filter P l) ≤ length (filter Q l))%nat.
Proof.
  intros HPQ. induction l as [| x l IH]; [done |].
  rewrite !filter_cons.
  destruct (decide (P x)) as [HP | HP].
  - rewrite decide_True by auto. simpl. lia.
  - destruct (decide (Q x)); simpl; lia.
Qed.

Lemma count_role_same_board g g' c :
  same_board g g' → count_role c g' = count_role c g.
Proof.
  intros (_ & Hw & _ & Hc & _). unfold count_role, get_card_type.
  by rewrite Hw, Hc.
Qed.

Lemma reachable_team_total (g : CodenamesGame) (t : Team) :
  reachable g → count_role (TeamCard t) g = 9 ∨ count_role (TeamCard t) g = 8.
Proof.
  intros Hg.
  destruct (reachable_origin g Hg) as (g0 & d & Hsize & Hd & Hsame & _).
  rewrite (count_role_same_board _ _ _ Hsame).
  destruct (valid_draw_facts g0 d Hsize Hd) as (Hnd & Hlen & Hlen' & Htally).
  rewrite setup_board_count_role by congruence. rewrite Htally.
  destruct t, (first_team d); vm_compute; tauto.
Qed.

(** X2: in every game reached from [setup_board] by [reveal_card] calls
    the two remaining counts stay between 0 and 9: revealing never drives
    a count below zero. *)
Theorem remaining_counts_bounded (g : CodenamesGame) :
  reachable g →
  0 ≤ red_remaining g ≤ 9 ∧ 0 ≤ blue_remaining g ≤ 9.
Proof.
  intros Hg. destruct (reachable_counts g Hg) as [_ [Hr Hb]].
  assert (Hle : ∀ t, 0 ≤ unrevealed_count t g ≤ count_role (TeamCard t) g).
  { intros t. unfold unrevealed_count, count_role. split; [lia |].
    apply inj_le, filter_length_le. tauto. }
  pose proof (Hle RED) as HR. pose proof (Hle BLUE) as HB.
  pose proof (reachable_team_total g RED Hg) as TR.
  pose proof (reachable_team_total g BLUE Hg) as TB.
  rewrite Hr, Hb. lia.
Qed.

Lemma remaining_counts_bounded_witness :
  0 ≤ red_remaining red_found ≤ 9 ∧ 0 ≤ blue_remaining red_found ≤ 9.
Proof. exact (remaining_counts_bounded red_found red_found_reachable). Defined.

(** ** [get_card_type], the grid and the win check on a set-up board *)

Lemma assignments_known first c :
  c ∈ card_assignments_for first → c ≠ UNKNOWN.
Proof.
  destruct first; vm_compute; intros Hc Heq; subst c;
    repeat match goal with
           | H : List.In _ _ |- _ => inversion H; clear H
           end;
    repeat (apply elem_of_cons in Hc as [Hc | Hc]; [discriminate |]);
    by apply elem_of_nil in Hc.
Qed.

Lemma setup_board_card_known g0 d w :
  board_size g0 = 5 → valid_draw g0 d →
  (get_card_type (setup_board g0 d) w = UNKNOWN ↔ w ∉ sampled d).
Proof.
  intros Hsize Hd.
  destruct (valid_draw_facts g0 d Hsize Hd) as (Hnd & Hlen & Hlen' & _).
  assert (Hll : length (sampled d) = length (shuffled d)) by congruence.
  split.
  - intros Hunk Hin.
    apply list_elem_of_lookup in Hin as (i & Hi).
    pose proof (setup_board_roles g0 d Hnd Hll) as Hroles.
    destruct (Forall2_lookup_l _ _ _ _ _ Hroles Hi) as (c & Hc & Hrole).
    rewrite Hunk in Hrole. subst c.
    apply (assignments_known (first_team d) UNKNOWN); [| reflexivity].
    destruct Hd as [_ Hperm]. rewrite Hperm.
    apply list_elem_of_lookup. eauto.
  - intros Hout. unfold get_card_type, setup_board. simpl.
    replace (assign_cards (sampled d) (shuffled d) !! w) with (@None CardType);
      [reflexivity |].
    symmetry. apply not_elem_of_dom.
    rewrite assign_cards_dom by done. by rewrite elem_of_list_to_set.
Qed.

(** X3: on a set-up board, before and after any reveals,
    [get_card_type] answers ['UNKNOWN'] exactly for the words that are not
    on the board; a board word always has one of the four real roles. *)
Theorem get_card_type_unknown (g : CodenamesGame) (w : string) :
  reachable g →
  (get_card_type g w = UNKNOWN ↔ w ∉ words g).
Proof.
  intros Hg.
  destruct (reachable_origin g Hg) as (g0 & d & Hsize & Hd & Hsame & _).
  destruct Hsame as (_ & Hw & _ & Hc & _).
  unfold get_card_type. rewrite Hc, Hw.
  exact (setup_board_card_known g0 d w Hsize Hd).
Qed.

Lemma get_card_type_unknown_witness :
  get_card_type red_found "ZEBRA" = UNKNOWN ↔ "ZEBRA" ∉ words red_found.
Proof. exact (get_card_type_unknown red_found "ZEBRA" red_found_reachable). Defined.

Lemma grid_25 (ws : list string) :
  length ws = 25%nat →
  length (grid 5 ws) = 5%nat ∧
  Forall (fun row => length row = 5%nat) (grid 5 ws) ∧
  concat (grid 5 ws) = ws.
Proof.
  intros Hlen.
  do 25 (destruct ws as [| ? ws]; [discriminate Hlen |]).
  destruct ws; [| discriminate Hlen].
  split; [reflexivity |]. split; [| reflexivity].
  repeat constructor.
Qed.

Lemma grid_cell (n : nat) (ws : list string) (i j : nat) (row : list string) :
  grid n ws !! i = Some row → (j < n)%nat →
  (i < n)%nat ∧ row !! j = Some (default "" (ws !! (i * n + j)%nat)).
Proof.
  unfold grid. rewrite list_lookup_fmap. intros Hrow Hj.
  destruct (seq 0 n !! i) as [i' |] eqn:Hi; [| discriminate].
  apply lookup_seq in Hi as [-> Hi]. simpl in Hrow. injection Hrow as <-.
  split; [exact Hi |].
  rewrite list_lookup_fmap, (lookup_seq_lt 0 n j Hj). reflexivity.
Qed.

(** X4: [setup_board] lays the 25 sampled words out row by row: the grid
    has 5 rows of 5 words, reading the rows one after the other gives
    [words] back, and the cell in row [i], column [j] is word number
    [5 * i + j]. *)
Theorem setup_board_grid (g0 : CodenamesGame) (d : Draw) :
  board_size g0 = 5 → valid_draw g0 d →
  let g := setup_board g0 d in
  length (board g) = 5%nat ∧
  Forall (fun row => length row = 5%nat) (board g) ∧
  concat (board g) = words g ∧
  ∀ i j row, (j < 5)%nat →
    board g !! i = Some row → row !! j = words g !! (5 * i + j)%nat.
Proof.
  intros Hsize Hd.
  destruct (valid_draw_facts g0 d Hsize Hd) as (_ & Hlen & _).
  cbv zeta. unfold setup_board. cbn [board words]. rewrite Hsize.
  change (Z.to_nat 5) with 5%nat.
  destruct (grid_25 (sampled d) Hlen) as (H1 & H2 & H3).
  split; [exact H1 |]. split; [exact H2 |]. split; [exact H3 |].
  intros i j row Hj Hrow.
  destruct (grid_cell 5 (sampled d) i j row Hrow Hj) as [Hi Hcell].
  rewrite Hcell. replace (5 * i + j)%nat with (i * 5 + j)%nat by lia.
  destruct (lookup_lt_is_Some_2 (sampled d) (i * 5 + j)) as [w Hw]; [lia |].
  by rewrite Hw.
Qed.

Lemma setup_board_grid_witness :
  let g := setup_board new_game demo_draw in
  length (board g) = 5%nat ∧
  Forall (fun row => length row = 5%nat) (board g) ∧
  concat (board g) = words g ∧
  ∀ i j row, (j < 5)%nat →
    board g !! i = Some row → row !! j = words g !! (5 * i + j)%nat.
Proof. exact (setup_board_grid new_game demo_draw eq_refl demo_draw_valid). Defined.

Lemma filter_nil_iff {A} (P : A → Prop) `{∀ x, Decision (P x)} (l : list A) :
  length (filter P l) = 0%nat ↔ ∀ x, x ∈ l → ¬ P x.
Proof.
  induction l as [| x l IH]; [split; [intros _ ? Hx; by apply elem_of_nil in Hx | done] |].
  rewrite filter_cons. destruct (decide (P x)) as [HP | HP]; simpl.
  - split; [discriminate |]. intros Hall. exfalso.
    apply (Hall x); [apply list_elem_of_here | exact HP].
  - rewrite IH. split.
    + intros Hall y [-> | Hy]%elem_of_cons; [exact HP | by apply Hall].
    + intros Hall y Hy. apply Hall. by right.
Qed.

Lemma all_found_iff (g : CodenamesGame) (t : Team) :
  unrevealed_count t g = 0 ↔
  ∀ w, w ∈ words g → get_card_type g w = TeamCard t → w ∈ revealed g.
Proof.
  unfold unrevealed_count.
  change 0 with (Z.of_nat 0). rewrite Nat2Z.inj_iff, filter_nil_iff. split.
  - intros Hall w Hw Hrole.
    destruct (decide (w ∈ revealed g)) as [Hr | Hr]; [exact Hr |].
    exfalso. by apply (Hall w Hw).
  - intros Hall w Hw [Hrole Hr]. apply Hr. by apply Hall.
Qed.

(** X5: on a set-up board, whatever has been revealed since,
    [check_win_condition] names RED exactly when every RED card is
    revealed, names BLUE exactly when every BLUE card is revealed while
    some RED card is not, and names nobody exactly when each team still
    has a hidden card. *)
Theorem check_win_condition_all_found (g : CodenamesGame) :
  reachable g →
  let found t :=
    ∀ w, w ∈ words g → get_card_type g w = TeamCard t → w ∈ revealed g in
  (check_win_condition g = Some RED ↔ found RED) ∧
  (check_win_condition g = Some BLUE ↔ ¬ found RED ∧ found BLUE) ∧
  (check_win_condition g = None ↔ ¬ found RED ∧ ¬ found BLUE).
Proof.
  intros Hg. destruct (reachable_counts g Hg) as [_ [Hr Hb]]. cbv zeta.
  rewrite <- !all_found_iff, <- Hr, <- Hb. unfold check_win_condition.
  destruct (Z.eqb_spec (red_remaining g) 0) as [Hr0 | Hr0];
    destruct (Z.eqb_spec (blue_remaining g) 0) as [Hb0 | Hb0];
    repeat split; intros; try congruence; try tauto;
    match goal with H : _ ∧ _ |- _ => destruct H; congruence end.
Qed.

Lemma check_win_condition_all_found_witness :
  let found t :=
    ∀ w, w ∈ words red_found → get_card_type red_found w = TeamCard t →
         w ∈ revealed red_found in
  (check_win_condition red_found = Some RED ↔ found RED) ∧
  (check_win_condition red_found = Some BLUE ↔ ¬ found RED ∧ found BLUE) ∧
  (check_win_condition red_found = None ↔ ¬ found RED ∧ ¬ found BLUE).
Proof. exact (check_win_condition_all_found red_found red_found_reachable). Defined.

(** ** The choice made by [make_guess] *)

(** The head of the stable sort is the first entry of highest score. *)
Lemma sorted_desc_head (l : list (string * Z)) (e : string * Z)
    (tl : list (string * Z)) :
  sorted_desc l = e :: tl →
  ∃ l1 l2, l = l1 ++ e :: l2 ∧
           (∀ x, x ∈ l1 → x.2 < e.2) ∧ (∀ x, x ∈ l2 → x.2 ≤ e.2).
Proof.
  revert e tl. induction l as [| x l IH]; intros e tl Hs; [discriminate |].
  simpl in Hs. destruct (sorted_desc l) as [| y tl'] eqn:Hl.
  - assert (l = []) as ->.
    { apply Permutation_nil. by rewrite (sorted_desc_Permutation l), Hl. }
    simpl in Hs. injection Hs as <- <-. exists [], [].
    split; [reflexivity |]. split; intros z Hz; by apply elem_of_nil in Hz.
  - destruct (IH y tl' eq_refl) as (l1 & l2 & -> & Hlt & Hle).
    simpl in Hs. destruct (y.2 >? x.2) eqn:Hcmp.
    + injection Hs as <- _. apply Z.gtb_lt in Hcmp.
      exists (x :: l1), l2. split; [reflexivity |]. split; [| exact Hle].
      intros z [-> | Hz]%elem_of_cons; [lia | by apply Hlt].
    + injection Hs as <- _.
      assert (Hyx : y.2 ≤ x.2).
      { destruct (Z.gtb_spec (y.2) (x.2)); [discriminate | lia]. }
      exists [], (l1 ++ y :: l2). split; [reflexivity |].
      split; [intros z Hz; by apply elem_of_nil in Hz |].
      intros z [Hz | [-> | Hz]%elem_of_cons]%elem_of_app.
      * specialize (Hlt z Hz). lia.
      * exact Hyx.
      * specialize (Hle z Hz). lia.
Qed.

Section Scores.
Context (f : string → Z).

Let scored (d : list (string * Z)) : Prop := ∀ k v, (k, v) ∈ d → v = f k.

Lemma dict_set_scored k d :
  scored d → scored (dict_set k (f k) d).
Proof.
  unfold scored. induction d as [| [k0 v0] d IH]; intros Hd k' v'; simpl.
  - intros [= -> ->]%list_elem_of_singleton. reflexivity.
  - destruct (String.eqb_spec k0 k) as [-> | Hne].
    + intros [[= -> ->] | Hin]%elem_of_cons; [reflexivity |].
      apply Hd. by right.
    + intros [[= -> ->] | Hin]%elem_of_cons.
      * apply Hd. by left.
      * apply IH; [| exact Hin]. intros k2 v2 H2. apply Hd. by right.
Qed.

Lemma dict_set_has k v d : (k, v) ∈ dict_set k v d.
Proof.
  induction d as [| [k0 v0] d IH]; simpl; [apply list_elem_of_here |].
  destruct (String.eqb_spec k0 k) as [-> | Hne];
    [apply list_elem_of_here | by right].
Qed.

Lemma dict_set_keeps k v d k' :
  k' ∈ d.*1 → k' ∈ (dict_set k v d).*1.
Proof.
  induction d as [| [k0 v0] d IH]; simpl; [intros H; by apply elem_of_nil in H |].
  destruct (String.eqb_spec k0 k) as [-> | Hne]; simpl; [done |].
  intros [-> | Hin]%elem_of_cons; [by left | right; by apply IH].
Qed.

Lemma scores_scored ws d :
  scored d →
  scored (fold_left (fun scores word => dict_set word (f word) scores) ws d).
Proof.
  revert d. induction ws as [| w ws IH]; intros d Hd; simpl; [exact Hd |].
  apply IH. by apply dict_set_scored.
Qed.

Lemma scores_cover ws d k :
  k ∈ ws ∨ k ∈ d.*1 →
  k ∈ (fold_left (fun scores word => dict_set word (f word) scores) ws d).*1.
Proof.
  revert d. induction ws as [| w ws IH]; intros d Hk; simpl.
  - destruct Hk as [Hk | Hk]; [by apply elem_of_nil in Hk | exact Hk].
  - apply IH. destruct Hk as [[-> | Hk]%elem_of_cons | Hk].
    + right. apply list_elem_of_fmap. exists (w, f w).
      split; [reflexivity | apply dict_set_has].
    + by left.
    + right. by apply dict_set_keeps.
Qed.

(** On distinct words the dictionary is the list of the words with their
    scores, in the order of the words. *)
Lemma scores_NoDup ws d :
  NoDup ws → (∀ w, w ∈ ws → w ∉ d.*1) →
  fold_left (fun scores word => dict_set word (f word) scores) ws d
  = d ++ map (fun w => (w, f w)) ws.
Proof.
  revert d. induction ws as [| w ws IH]; intros d Hnd Hfresh; simpl.
  - by rewrite app_nil_r.
  - apply NoDup_cons in Hnd as [Hw Hnd].
    assert (Hset : dict_set w (f w) d = d ++ [(w, f w)]).
    { assert (Hd : w ∉ d.*1) by (apply Hfresh; by left).
      clear -Hd. induction d as [| [k0 v0] d IH]; [reflexivity |]. simpl.
      apply not_elem_of_cons in Hd as [Hne Hd]. simpl in Hne.
      destruct (String.eqb_spec k0 w) as [-> | _]; [done |].
      by rewrite IH. }
    rewrite Hset, IH; [by rewrite <- app_assoc | exact Hnd |].
    intros w' Hw'. rewrite fmap_app. simpl.
    intros [Hin | Hin]%elem_of_app.
    + apply (Hfresh w'); [by right | exact Hin].
    + apply list_elem_of_singleton in Hin. subst w'. done.
Qed.
End Scores.

Lemma available_NoDup (g : CodenamesGame) :
  NoDup (words g) → NoDup (available g).
Proof. intros H. apply NoDup_ListNoDup, List.NoDup_filter, NoDup_ListNoDup, H. Qed.

Lemma available_spec (g : CodenamesGame) (w : string) :
  w ∈ available g ↔ w ∈ words g ∧ w ∉ revealed g.
Proof.
  unfold available. rewrite list_elem_of_In, filter_In, <- list_elem_of_In.
  rewrite negb_true_iff, bool_decide_eq_false. tauto.
Qed.

(** What [make_guess] computes, once its two early returns are passed. *)
Lemma make_guess_unfold self g clue count :
  String.eqb clue "PASS" || (count =? 0) = false →
  (make_guess self g clue count).2 =
    match sorted_desc
            (fold_left
               (fun scores word =>
                  dict_set word (guess_score clue word) scores)
               (available g) [])
    with
    | (best_word, best_score) :: _ =>
        if best_score >? 0 then Some best_word else None
    | [] => None
    end.
Proof.
  intros Hgo. unfold make_guess. rewrite Hgo. fold (available g).
  destruct (available g) as [| a rest] eqn:Hav; [reflexivity |].
  unfold guess_score.
  destruct (sorted_desc _) as [| [bw bs] tl]; [reflexivity |].
  by destruct (bs >? 0).
Qed.

Lemma make_guess_early self g clue count :
  String.eqb clue "PASS" || (count =? 0) = true →
  (make_guess self g clue count).2 = None.
Proof. intros Hgo. unfold make_guess. by rewrite Hgo. Qed.

(** X6: a word returned by [make_guess] is an unrevealed board word whose
    score for the clue is positive and is the highest among all unrevealed
    words; on a board of distinct words it is the first such word in board
    order: every unrevealed word before it scores strictly less. *)
Theorem make_guess_best (self : AIGuesser) (g : CodenamesGame)
    (clue : string) (count : Z) (w : string) :
  (make_guess self g clue count).2 = Some w →
  w ∈ available g ∧ 0 < guess_score clue w ∧
  (∀ w', w' ∈ available g → guess_score clue w' ≤ guess_score clue w) ∧
  (NoDup (words g) →
   ∃ before after,
     available g = before ++ w :: after ∧
     ∀ w', w' ∈ before → guess_score clue w' < guess_score clue w).
Proof.
  destruct (String.eqb clue "PASS" || (count =? 0)) eqn:Hgo.
  { rewrite make_guess_early by done. discriminate. }
  rewrite make_guess_unfold by done.
  set (scores := fold_left _ (available g) []).
  destruct (sorted_desc scores) as [| [bw bs] tl] eqn:Hs; [discriminate |].
  destruct (bs >? 0) eqn:Hpos; [| discriminate]. intros [= ->].
  apply Z.gtb_lt in Hpos.
  destruct (sorted_desc_head scores (w, bs) tl Hs)
    as (l1 & l2 & Hsplit & Hlt & Hle).
  assert (Hin : (w, bs) ∈ scores).
  { rewrite Hsplit. apply elem_of_app. right. by left. }
  assert (Hsc : ∀ k v, (k, v) ∈ scores → v = guess_score clue k).
  { apply scores_scored. intros k v Hk. by apply elem_of_nil in Hk. }
  assert (Hbs : bs = guess_score clue w) by (by apply Hsc).
  assert (Hw : w ∈ available g).
  { apply scores_keys in Hin as [Hin | Hin];
      [exact Hin | by apply elem_of_nil in Hin]. }
  split; [exact Hw |]. split; [lia |]. split.
  - intros w' Hw'.
    assert (Hk : w' ∈ scores.*1) by (apply scores_cover; by left).
    apply list_elem_of_fmap in Hk as ([k v] & -> & Hk). simpl.
    rewrite <- (Hsc _ _ Hk), <- Hbs.
    rewrite Hsplit in Hk.
    apply elem_of_app in Hk as [Hk | [[= -> ->] | Hk]%elem_of_cons].
    + specialize (Hlt _ Hk). simpl in Hlt. lia.
    + lia.
    + exact (Hle _ Hk).
  - intros Hnd.
    assert (Hmap : scores = map (fun w => (w, guess_score clue w)) (available g)).
    { unfold scores. rewrite scores_NoDup; [reflexivity | |].
      - by apply available_NoDup.
      - intros ? _ H. by apply elem_of_nil in H. }
    rewrite Hmap in Hsplit.
    change (map ?h ?l) with (h <$> l) in Hsplit.
    apply fmap_app_inv in Hsplit as (before & rest & Hl1 & Hrest & Hav).
    symmetry in Hrest. apply fmap_cons_inv in Hrest as (w0 & after & Hw0 & Hl2 & Hrest).
    injection Hw0 as <- _. subst rest.
    exists before, after. split; [exact Hav |].
    intros w' Hw'. rewrite <- Hbs.
    apply (Hlt (w', guess_score clue w')). rewrite Hl1.
    apply list_elem_of_fmap. by exists w'.
Qed.

Lemma make_guess_best_witness :
  "BEAR" ∈ available demo_game ∧ 0 < guess_score "ANIMAL" "BEAR" ∧
  (∀ w', w' ∈ available demo_game →
         guess_score "ANIMAL" w' ≤ guess_score "ANIMAL" "BEAR") ∧
  (NoDup (words demo_game) →
   ∃ before after,
     available demo_game = before ++ "BEAR" :: after ∧
     ∀ w', w' ∈ before → guess_score "ANIMAL" w' < guess_score "ANIMAL" "BEAR").
Proof.
  apply (make_guess_best (mkGuesser BLUE None 0) demo_game "ANIMAL" 2).
  vm_compute. reflexivity.
Defined.

(** The score is never negative, and positive as soon as the two lengths
    differ by less than 10. *)
Lemma bonus_over_nonneg table clue word : 0 ≤ bonus_over table clue word.
Proof.
  unfold bonus_over. induction table as [| cw table IH]; simpl; [lia |].
  unfold bonus_in at 1.
  destruct (String.eqb cw.1 clue && Str.mem word cw.2);
    destruct (Str.mem word cw.2 && existsb (fun w => String.eqb w clue) cw.2);
    lia.
Qed.

Lemma _score_word_lower_bound clue word :
  Z.max 0 (10 - Z.abs (Str.len clue - Str.len word)) ≤ _score_word clue word.
Proof.
  rewrite _score_word_parts. destruct (String.eqb clue word); [lia |].
  pose proof (bonus_over_nonneg guesser_associations clue word).
  unfold category_bonus, substring_part, overlap_part, length_part,
    Str.overlap.
  destruct (Str.contains clue word || Str.contains word clue); lia.
Qed.

Lemma lower_len (s : string) : Str.len (Str.lower s) = Str.len s.
Proof.
  unfold Str.len. f_equal.
  induction s as [| c s IH]; simpl; [reflexivity | by rewrite IH].
Qed.

Lemma guess_score_lower_bound clue word :
  Z.max 0 (10 - Z.abs (Str.len clue - Str.len word)) ≤ guess_score clue word.
Proof.
  unfold guess_score.
  rewrite <- (lower_len clue), <- (lower_len word).
  apply _score_word_lower_bound.
Qed.

(** The head of the sorted scores is an unrevealed word with its score,
    and no unrevealed word scores more. *)
Lemma scores_head_max g clue bw bs tl :
  sorted_desc
    (fold_left
       (fun scores word => dict_set word (guess_score clue word) scores)
       (available g) []) = (bw, bs) :: tl →
  bw ∈ available g ∧ bs = guess_score clue bw ∧
  ∀ w, w ∈ available g → guess_score clue w ≤ bs.
Proof.
  set (scores := fold_left _ (available g) []). intros Hs.
  destruct (sorted_desc_head scores (bw, bs) tl Hs)
    as (l1 & l2 & Hsplit & Hlt & Hle).
  assert (Hin : (bw, bs) ∈ scores).
  { rewrite Hsplit. apply elem_of_app. right. by left. }
  assert (Hsc : ∀ k v, (k, v) ∈ scores → v = guess_score clue k).
  { apply scores_scored. intros k v Hk. by apply elem_of_nil in Hk. }
  split.
  { apply scores_keys in Hin as [Hin | Hin];
      [exact Hin | by apply elem_of_nil in Hin]. }
  split; [by apply Hsc |].
  intros w Hw.
  assert (Hk : w ∈ scores.*1) by (apply scores_cover; by left).
  apply list_elem_of_fmap in Hk as ([k v] & -> & Hk). simpl.
  rewrite <- (Hsc _ _ Hk). rewrite Hsplit in Hk.
  apply elem_of_app in Hk as [Hk | [[= -> ->] | Hk]%elem_of_cons].
  - specialize (Hlt _ Hk). simpl in Hlt. lia.
  - lia.
  - exact (Hle _ Hk).
Qed.

Lemma scores_empty g clue :
  sorted_desc
    (fold_left
       (fun scores word => dict_set word (guess_score clue word) scores)
       (available g) []) = [] →
  available g = [].
Proof.
  set (scores := fold_left _ (available g) []). intros Hs.
  assert (Hnil : scores = []).
  { apply Permutation_nil. by rewrite (sorted_desc_Permutation scores), Hs. }
  destruct (available g) as [| a rest] eqn:Hav; [reflexivity |].
  assert (Hk : a ∈ scores.*1) by (apply scores_cover; left; by left).
  rewrite Hnil in Hk. by apply elem_of_nil in Hk.
Qed.

(** X7: [make_guess] passes (returns [None]) exactly when the clue is
    ["PASS"], or the count is 0, or every unrevealed word scores 0 for the
    clue, which includes the case that no word is left. *)
Theorem make_guess_pass_iff (self : AIGuesser) (g : CodenamesGame)
    (clue : string) (count : Z) :
  (make_guess self g clue count).2 = None ↔
  clue = "PASS" ∨ count = 0 ∨
  ∀ w, w ∈ words g → w ∉ revealed g → guess_score clue w = 0.
Proof.
  destruct (String.eqb clue "PASS" || (count =? 0)) eqn:Hgo.
  { rewrite make_guess_early by done. split; [intros _ | done].
    apply orb_prop in Hgo as [Hc | Hc];
      [left; by apply String.eqb_eq | right; left; by apply Z.eqb_eq]. }
  apply orb_false_elim in Hgo as Hgo'. destruct Hgo' as [Hc Hn].
  apply String.eqb_neq in Hc. apply Z.eqb_neq in Hn.
  rewrite make_guess_unfold by done.
  destruct (sorted_desc _) as [| [bw bs] tl] eqn:Hs.
  - apply scores_empty in Hs. split; [intros _ | done].
    right. right. intros w Hin Hnew.
    assert (Hw : w ∈ available g) by (by apply available_spec).
    rewrite Hs in Hw. by apply elem_of_nil in Hw.
  - apply scores_head_max in Hs as (Hbw & Hbs & Hmax).
    destruct (bs >? 0) eqn:Hpos.
    + apply Z.gtb_lt in Hpos. split; [discriminate |].
      intros [? | [? | Hall]]; [done | done |].
      apply available_spec in Hbw as [Hin Hnew].
      specialize (Hall bw Hin Hnew). lia.
    + split; [intros _ | done]. right. right. intros w Hin Hnew.
      assert (Hw : w ∈ available g) by (by apply available_spec).
      specialize (Hmax w Hw).
      pose proof (guess_score_lower_bound clue w).
      destruct (Z.gtb_spec bs 0); [discriminate | lia].
Qed.



(** ** The choice made by [generate_clue] *)

Lemma scores_get_add clue word scores c :
  scores_get c (add_score clue word scores) =
    if String.eqb clue c
    then Some (default [] (scores_get clue scores) ++ [word])
    else scores_get c scores.
Proof.
  induction scores as [| [c0 ws0] scores IH]; simpl.
  - destruct (String.eqb clue c); reflexivity.
  - destruct (String.eqb_spec c0 clue) as [-> | Hne]; simpl.
    + by destruct (String.eqb_spec clue c).
    + destruct (String.eqb_spec c0 c) as [-> | Hne'].
      * by rewrite (proj2 (String.eqb_neq _ _) (not_eq_sym Hne)).
      * exact IH.
Qed.

Lemma add_score_keys clue word scores :
  (add_score clue word scores).*1 =
    if bool_decide (clue ∈ scores.*1) then scores.*1 else scores.*1 ++ [clue].
Proof.
  induction scores as [| [c0 ws0] scores IH]; [reflexivity |].
  cbn [add_score]. rewrite fmap_cons. cbn [fst].
  destruct (String.eqb_spec c0 clue) as [-> | Hne]; rewrite fmap_cons; cbn [fst].
  - rewrite bool_decide_eq_true_2; [reflexivity | by left].
  - rewrite IH. destruct (bool_decide_reflect (clue ∈ scores.*1)) as [Hin | Hout].
    + rewrite bool_decide_eq_true_2; [reflexivity | by right].
    + rewrite bool_decide_eq_false_2; [reflexivity |].
      intros [? | ?]%elem_of_cons; [congruence | done].
Qed.

Lemma add_score_keys_NoDup clue word scores :
  NoDup scores.*1 → NoDup (add_score clue word scores).*1.
Proof.
  intros Hnd. rewrite add_score_keys.
  destruct (bool_decide_reflect (clue ∈ scores.*1)) as [Hin | Hout];
    [exact Hnd |].
  apply NoDup_app. split; [exact Hnd |]. split.
  - intros c Hc ->%list_elem_of_singleton. done.
  - apply NoDup_singleton.
Qed.

Lemma scores_get_entry scores c ws :
  NoDup scores.*1 → (c, ws) ∈ scores → scores_get c scores = Some ws.
Proof.
  induction scores as [| [c0 ws0] scores IH]; intros Hnd Hin;
    [by apply elem_of_nil in Hin |].
  simpl in *. apply NoDup_cons in Hnd as [Hc0 Hnd].
  apply elem_of_cons in Hin as [[= -> ->] | Hin].
  - by rewrite String.eqb_refl.
  - destruct (String.eqb_spec c0 c) as [-> | Hne]; [| by apply IH].
    exfalso. apply Hc0. by apply (list_elem_of_fmap_2' fst _ (c, ws)).
Qed.

Lemma scores_get_key (scores : list (string * list string)) (c : string) :
  c ∈ scores.*1 → ∃ ws, (c, ws) ∈ scores.
Proof.
  intros ([c' ws] & -> & Hin)%list_elem_of_fmap. by exists ws.
Qed.

Lemma records_add scores events clue word :
  records scores events →
  records (add_score clue word scores) (events ++ [(clue, word)]).
Proof.
  intros (Hnd & Hkeys & Hget). split; [by apply add_score_keys_NoDup |]. split.
  - intros c w [Hin | Hin]%elem_of_app; rewrite add_score_keys.
    + destruct (bool_decide (clue ∈ scores.*1)); [by eapply Hkeys |].
      apply elem_of_app. left. by eapply Hkeys.
    + apply list_elem_of_singleton in Hin. injection Hin as -> ->.
      destruct (bool_decide_reflect (clue ∈ scores.*1)) as [Hc | Hc];
        [exact Hc |].
      apply elem_of_app. right. by left.
  - intros c ws. rewrite scores_get_add.
    destruct (String.eqb_spec clue c) as [-> | Hne].
    + intros [= <-] w. rewrite !elem_of_app, !list_elem_of_singleton.
      assert (Hsame : (c, w) = (c, word) ↔ w = word).
      { split; [intros [= ->] | intros ->]; reflexivity. }
      rewrite Hsame.
      destruct (scores_get c scores) as [ws0 |] eqn:Hc; simpl.
      * by rewrite (Hget c ws0 Hc w).
      * split.
        -- intros [H | ->]; [by apply elem_of_nil in H | by right].
        -- intros [Hin | ->]; [| by right].
           exfalso. apply Hkeys, scores_get_key in Hin as (ws0 & Hin).
           apply scores_get_entry in Hin; [congruence | exact Hnd].
    + intros Hc w. rewrite (Hget c ws Hc w), elem_of_app, list_elem_of_singleton.
      split; [tauto |]. intros [? | [= ? ?]]; [done | congruence].
Qed.

Lemma clue_scores_fold (tw : list string) scores :
  fold_left
    (fun scores word =>
       fold_left (fun scores clue => add_score clue word scores)
                 (_get_potential_clues word) scores)
    tw scores
  = fold_left (fun scores cw => add_score cw.1 cw.2 scores)
              (clue_events tw) scores.
Proof.
  unfold clue_events. revert scores.
  induction tw as [| w tw IH]; intros scores; simpl; [reflexivity |].
  rewrite fold_left_app, <- IH. f_equal.
  generalize (_get_potential_clues w). intros cs. revert scores.
  induction cs as [| c cs IHc]; intros scores; simpl; [reflexivity | apply IHc].
Qed.

Lemma records_fold events scores done :
  records scores done →
  records (fold_left (fun scores cw => add_score cw.1 cw.2 scores)
                     events scores)
          (done ++ events).
Proof.
  revert scores done. induction events as [| [c w] events IH];
    intros scores done Hrec; simpl.
  - by rewrite app_nil_r.
  - replace (done ++ (c, w) :: events) with ((done ++ [(c, w)]) ++ events)
      by (by rewrite <- app_assoc).
    apply IH. by apply records_add.
Qed.

Lemma clue_scores_records (tw : list string) :
  records (clue_scores_of tw) (clue_events tw).
Proof.
  unfold clue_scores_of. rewrite clue_scores_fold.
  apply (records_fold (clue_events tw) [] []).
  split; [constructor |]. split.
  - intros c w H. by apply elem_of_nil in H.
  - intros c ws [=].
Qed.

Lemma clue_events_spec (tw : list string) c w :
  (c, w) ∈ clue_events tw ↔ w ∈ tw ∧ Str.mem c (_get_potential_clues w) = true.
Proof.
  unfold clue_events. rewrite list_elem_of_In, in_flat_map. split.
  - intros (w' & Hw' & Hin). apply in_map_iff in Hin as (c' & [= -> ->] & Hc).
    split; [by apply list_elem_of_In |].
    apply mem_elem_of. by apply list_elem_of_In.
  - intros [Hw Hc]. exists w. split; [by apply list_elem_of_In |].
    apply in_map_iff. exists c. split; [reflexivity |].
    apply list_elem_of_In. by apply mem_elem_of.
Qed.

Lemma unique_count_same (l l' : list string) :
  (∀ w, w ∈ l ↔ w ∈ l') → unique_count l = unique_count l'.
Proof.
  intros Hsame. unfold unique_count. f_equal.
  apply Permutation_length, NoDup_Permutation.
  - apply NoDup_ListNoDup, List.NoDup_nodup.
  - apply NoDup_ListNoDup, List.NoDup_nodup.
  - intros w. rewrite !list_elem_of_In, !nodup_In, <- !list_elem_of_In.
    apply Hsame.
Qed.

Lemma unique_count_le (l : list string) :
  0 ≤ unique_count l ≤ Z.of_nat (length l).
Proof.
  unfold unique_count. split; [lia |]. apply inj_le.
  apply List.NoDup_incl_length; [apply List.NoDup_nodup |].
  intros w Hw. by apply nodup_In in Hw.
Qed.

Lemma links_le (clue : string) (tw : list string) :
  0 ≤ links clue tw ≤ Z.of_nat (length tw).
Proof.
  unfold links, linked.
  pose proof (unique_count_le
                (List.filter (fun w => Str.mem clue (_get_potential_clues w)) tw)).
  pose proof (List.filter_length_le
                (fun w => Str.mem clue (_get_potential_clues w)) tw).
  lia.
Qed.

(** Each entry of [clue_scores] counts the distinct team words its clue is
    proposed for. *)
Lemma clue_scores_entry (tw : list string) c ws :
  (c, ws) ∈ clue_scores_of tw → unique_count ws = links c tw.
Proof.
  intros Hin. destruct (clue_scores_records tw) as (Hnd & _ & Hget).
  apply scores_get_entry in Hin; [| exact Hnd].
  apply unique_count_same. intros w.
  rewrite (Hget c ws Hin w), clue_events_spec. unfold linked. split.
  - intros [Hw Hc]. apply list_elem_of_In, filter_In.
    split; [by apply list_elem_of_In | exact Hc].
  - intros [Hw Hc]%list_elem_of_In%filter_In.
    split; [by apply list_elem_of_In | exact Hc].
Qed.

Lemma clue_scores_has (tw : list string) c :
  links c tw ≠ 0 → ∃ ws, (c, ws) ∈ clue_scores_of tw.
Proof.
  intros Hl. destruct (clue_scores_records tw) as (_ & Hkeys & _).
  destruct (linked c tw) as [| w rest] eqn:Hlinked.
  { exfalso. apply Hl. unfold links. by rewrite Hlinked. }
  assert (Hw : w ∈ linked c tw) by (rewrite Hlinked; by left).
  unfold linked in Hw.
  apply list_elem_of_In, filter_In in Hw as [Hw Hc].
  apply scores_get_key, (Hkeys c w), clue_events_spec.
  split; [by apply list_elem_of_In | exact Hc].
Qed.

(** The search keeps the first entry of highest count among the clues that
    are off the board and do not claim more words than the team has. *)
Lemma best_of_max g tw scores :
  let '(best_clue, best_count) := best_of g tw scores in
  0 ≤ best_count ∧
  (∀ c, best_clue = Some c →
        ∃ ws, (c, ws) ∈ scores ∧ best_count = unique_count ws ∧
              0 < best_count ≤ Z.of_nat (length tw)) ∧
  (∀ c ws, (c, ws) ∈ scores →
           Str.mem (Str.upper c) (words g) = false →
           unique_count ws ≤ Z.of_nat (length tw) →
           unique_count ws ≤ best_count).
Proof.
  unfold best_of.
  set (body := fun (best : option string * Z) (cw : string * list string) => _).
  assert (Hgen : ∀ done todo best,
            scores = done ++ todo →
            (0 ≤ best.2 ∧
             (∀ c, best.1 = Some c →
                   ∃ ws, (c, ws) ∈ done ∧ best.2 = unique_count ws ∧
                         0 < best.2 ≤ Z.of_nat (length tw)) ∧
             (∀ c ws, (c, ws) ∈ done →
                      Str.mem (Str.upper c) (words g) = false →
                      unique_count ws ≤ Z.of_nat (length tw) →
                      unique_count ws ≤ best.2)) →
            let r := fold_left body todo best in
            0 ≤ r.2 ∧
            (∀ c, r.1 = Some c →
                  ∃ ws, (c, ws) ∈ scores ∧ r.2 = unique_count ws ∧
                        0 < r.2 ≤ Z.of_nat (length tw)) ∧
            (∀ c ws, (c, ws) ∈ scores →
                     Str.mem (Str.upper c) (words g) = false →
                     unique_count ws ≤ Z.of_nat (length tw) →
                     unique_count ws ≤ r.2)).
  { intros done todo. revert done.
    induction todo as [| [clue ws] todo IH]; intros done best Hsplit Hinv.
    - rewrite app_nil_r in Hsplit. subst done. exact Hinv.
    - simpl. apply (IH (done ++ [(clue, ws)])).
      { by rewrite <- app_assoc. }
      destruct best as [bc bn]. destruct Hinv as (Hpos & Hsome & Hmax).
      simpl in Hpos, Hsome, Hmax. unfold body.
      destruct (Str.mem (Str.upper clue) (words g)) eqn:Hboard; simpl.
      + split; [exact Hpos |]. split.
        * intros c Hc. destruct (Hsome c Hc) as (ws' & Hin & Hrest).
          exists ws'. split; [apply elem_of_app; by left | exact Hrest].
        * intros c ws' [Hin | Hin]%elem_of_app; [by apply Hmax |].
          apply list_elem_of_singleton in Hin. injection Hin as -> ->.
          congruence.
      + destruct (unique_count ws >? bn) eqn:Hgt;
          destruct (unique_count ws <=? Z.of_nat (length tw)) eqn:Hle; simpl.
        * apply Z.gtb_lt in Hgt. apply Z.leb_le in Hle.
          split; [lia |]. split.
          -- intros c [= <-]. exists ws.
             split; [apply elem_of_app; right; by left |].
             split; [reflexivity | lia].
          -- intros c ws' [Hin | Hin]%elem_of_app.
             ++ intros Hb Hl. specialize (Hmax c ws' Hin Hb Hl). lia.
             ++ apply list_elem_of_singleton in Hin. injection Hin as -> ->.
                intros. lia.
        * apply Z.leb_gt in Hle.
          split; [exact Hpos |]. split.
          -- intros c Hc. destruct (Hsome c Hc) as (ws' & Hin & Hrest).
             exists ws'. split; [apply elem_of_app; by left | exact Hrest].
          -- intros c ws' [Hin | Hin]%elem_of_app; [by apply Hmax |].
             apply list_elem_of_singleton in Hin. injection Hin as -> ->.
             intros. lia.
        * assert (Hngt : unique_count ws ≤ bn).
          { destruct (Z.gtb_spec (unique_count ws) bn); [discriminate | lia]. }
          split; [exact Hpos |]. split.
          -- intros c Hc. destruct (Hsome c Hc) as (ws' & Hin & Hrest).
             exists ws'. split; [apply elem_of_app; by left | exact Hrest].
          -- intros c ws' [Hin | Hin]%elem_of_app; [by apply Hmax |].
             apply list_elem_of_singleton in Hin. injection Hin as -> ->.
             intros. lia.
        * assert (Hngt : unique_count ws ≤ bn).
          { destruct (Z.gtb_spec (unique_count ws) bn); [discriminate | lia]. }
          split; [exact Hpos |]. split.
          -- intros c Hc. destruct (Hsome c Hc) as (ws' & Hin & Hrest).
             exists ws'. split; [apply elem_of_app; by left | exact Hrest].
          -- intros c ws' [Hin | Hin]%elem_of_app; [by apply Hmax |].
             apply list_elem_of_singleton in Hin. injection Hin as -> ->.
             intros. lia. }
  specialize (Hgen [] scores (None, 0) eq_refl).
  destruct (fold_left body scores (None, 0)) as [bc bn]. apply Hgen.
  simpl. split; [lia |]. split; [intros c [=] |].
  intros c ws H. by apply elem_of_nil in H.
Qed.

(** X9: when the search of [generate_clue] finds a usable clue, the text
    returned is that clue in upper case, it is not a board word, the count
    returned is the number of distinct unrevealed team words for which
    [_get_potential_clues] proposes the clue, and no clue that is off the
    board is proposed for more of them. *)
Theorem generate_clue_most_links (team : Team) (g : CodenamesGame) :
  association_found team g = true →
  let tw := team_words team g in
  let '(text, count) := generate_clue team g in
  ∃ clue,
    clue ≠ "" ∧ text = Str.upper clue ∧ (text ∉ words g) ∧
    count = links clue tw ∧ 1 ≤ count ∧
    ∀ clue', Str.upper clue' ∉ words g → links clue' tw ≤ count.
Proof.
  unfold association_found, generate_clue. cbv zeta.
  destruct (team_words team g) as [| first rest] eqn:Htw; [discriminate |].
  set (tw := first :: rest).
  pose proof (best_of_max g tw (clue_scores_of tw)) as Hmax.
  destruct (best_of g tw (clue_scores_of tw)) as [bc bn] eqn:Hbest.
  destruct Hmax as (_ & Hsome & Hmax).
  intros Hfound. rewrite Hfound.
  apply andb_prop in Hfound as [Htruthy _].
  destruct bc as [c |]; [| discriminate]. simpl in Htruthy.
  apply negb_true_iff, String.eqb_neq in Htruthy.
  destruct (Hsome c eq_refl) as (ws & Hin & Hbn & Hrange).
  exists c. cbn [default]. fold tw.
  split; [exact Htruthy |]. split; [reflexivity |].
  split; [apply mem_false; eapply best_of_off_board, Hbest |].
  rewrite Z.min_l by lia.
  split; [rewrite Hbn; by apply clue_scores_entry |]. split; [lia |].
  intros clue' Hoff.
  destruct (Z.eq_dec (links clue' tw) 0) as [Hz | Hnz]; [lia |].
  destruct (clue_scores_has tw clue' Hnz) as (ws' & Hin').
  rewrite <- (clue_scores_entry tw clue' ws' Hin').
  apply (Hmax clue' ws' Hin'); [by apply mem_false |].
  rewrite (clue_scores_entry tw clue' ws' Hin'). apply links_le.
Qed.

Lemma generate_clue_most_links_witness :
  let tw := team_words RED demo_game in
  let '(text, count) := generate_clue RED demo_game in
  ∃ clue,
    clue ≠ "" ∧ text = Str.upper clue ∧ (text ∉ words demo_game) ∧
    count = links clue tw ∧ 1 ≤ count ∧
    ∀ clue', Str.upper clue' ∉ words demo_game → links clue' tw ≤ count.
Proof.
  apply (generate_clue_most_links RED demo_game). vm_compute. reflexivity.
Defined.

(** ** The game object during [play_game] *)

Lemma same_cards_refl g : same_cards g g.
Proof. repeat split. Qed.

Lemma reveal_card_same_cards g g' word :
  same_cards g g' →
  same_cards (reveal_card g word).1 (reveal_card g' word).1 ∧
  (reveal_card g' word).2 = (reveal_card g word).2.
Proof.
  intros (H1 & H2 & H3 & H4 & H5 & H6 & H7).
  destruct (decide (word ∈ words g ∧ word ∉ revealed g)) as [[Hin Hnew] | Hn].
  - rewrite (reveal_card_applied g) by done.
    rewrite (reveal_card_applied g') by (by rewrite ?H2, ?H5).
    unfold get_card_type. rewrite H4.
    destruct (default UNKNOWN (card_types g !! word)) as [[|]| | |]; simpl;
      (split; [| reflexivity]); unfold same_cards; simpl;
      rewrite ?H1, ?H2, ?H3, ?H4, ?H5, ?H6, ?H7; repeat split; reflexivity.
  - assert (Hrej : word ∉ words g ∨ word ∈ revealed g).
    { destruct (decide (word ∈ words g)); [right | left; done].
      destruct (decide (word ∈ revealed g)); [done | tauto]. }
    rewrite (reveal_card_rejected g) by done.
    rewrite (reveal_card_rejected g') by (by rewrite ?H2, ?H5).
    split; [| reflexivity]. repeat split; assumption.
Qed.

Lemma in_play_reveal g word : in_play g → in_play (reveal_card g word).1.
Proof.
  intros (g' & Hreach & Hsame). exists (reveal_card g' word).1.
  split; [by constructor |]. by apply reveal_card_same_cards.
Qed.

Lemma in_play_set_turn t g : in_play g → in_play (set_turn t g).
Proof. intros (g' & Hreach & Hsame). by exists g'. Qed.

Lemma in_play_set_outcome t g :
  in_play g → in_play (set_winner t (set_game_over true g)).
Proof. intros (g' & Hreach & Hsame). by exists g'. Qed.

Lemma in_play_counts g :
  in_play g →
  NoDup (words g) ∧ counts_agree g ∧
  (∀ w, w ∈ revealed g → w ∈ words g) ∧
  (0 ≤ red_remaining g ≤ 9) ∧ (0 ≤ blue_remaining g ≤ 9) ∧
  (∀ w, get_card_type g w = UNKNOWN ↔ w ∉ words g).
Proof.
  intros (g' & Hreach & (H1 & H2 & H3 & H4 & H5 & H6 & H7)).
  destruct (reachable_counts g' Hreach) as [Hnd [Hr Hb]].
  destruct (reachable_origin g' Hreach) as (g0 & d & Hsize & Hd & Hsame & Hsub).
  assert (Hcount : ∀ t, unrevealed_count t g = unrevealed_count t g').
  { intros t. unfold unrevealed_count, get_card_type. by rewrite H2, H4, H5. }
  split; [by rewrite H2 |]. split.
  { split; rewrite Hcount; congruence. }
  split; [rewrite H2, H5; exact Hsub |].
  assert (Hle : ∀ t, 0 ≤ unrevealed_count t g' ≤ count_role (TeamCard t) g').
  { intros t. unfold unrevealed_count, count_role. split; [lia |].
    apply inj_le, filter_length_le. tauto. }
  pose proof (Hle RED) as HR. pose proof (Hle BLUE) as HB.
  pose proof (reachable_team_total g' RED Hreach) as TR.
  pose proof (reachable_team_total g' BLUE Hreach) as TB.
  split; [lia |]. split; [lia |].
  intros w. unfold get_card_type. rewrite H4, H2.
  destruct Hsame as (_ & Hw & _ & Hc & _). rewrite Hc, Hw.
  exact (setup_board_card_known g0 d w Hsize Hd).
Qed.

Section Play.
Context (P : Players).

Lemma guess_once_in_play turn_count g clue count guesses_made te tas :
  in_play g →
  in_play
    (config_game (guess_once P turn_count g clue count guesses_made te tas)).
Proof.
  intros Hg. unfold guess_once.
  destruct (give_guess P turn_count guesses_made g clue count) as [guess |];
    [| exact Hg].
  pose proof (in_play_reveal g guess Hg) as Hg1.
  destruct (reveal_card g guess) as [g1 [success card_type]]. simpl in Hg1.
  destruct success; simpl; [| exact Hg1].
  destruct (check_win_condition g1); [by apply in_play_set_outcome |].
  destruct (bool_decide (card_type = Some (TeamCard (turn g1)))); simpl;
    [exact Hg1 |].
  destruct (bool_decide (card_type = Some ASSASSIN));
    [by apply in_play_set_outcome | by apply in_play_set_turn].
Qed.

Lemma step_in_play c :
  in_play (config_game c) → in_play (config_game (step P c)).
Proof.
  step_cases P c; intros Hg; try exact Hg;
    try (by apply in_play_set_turn).
  by apply guess_once_in_play.
Qed.

Lemma reached_in_play c : reached P c → in_play (config_game c).
Proof.
  induction 1 as [d Hd | c _ IH]; [| by apply step_in_play].
  exists (setup_board new_game d).
  split; [by constructor | apply same_cards_refl].
Qed.

(** X10: at every point of [play_game], whoever plays, the two remaining
    counts are the numbers of unrevealed RED and BLUE cards and lie
    between 0 and 9, every revealed word is a board word, and the board
    words are distinct. *)
Theorem play_game_counts (c : Config) :
  reached P c →
  let g := config_game c in
  red_remaining g = unrevealed_count RED g ∧
  blue_remaining g = unrevealed_count BLUE g ∧
  0 ≤ red_remaining g ≤ 9 ∧ 0 ≤ blue_remaining g ≤ 9 ∧
  (∀ w, w ∈ revealed g → w ∈ words g) ∧
  NoDup (words g).
Proof.
  intros Hc. apply reached_in_play, in_play_counts in Hc.
  destruct Hc as (Hnd & [Hr Hb] & Hsub & HR & HB & _).
  cbv zeta. repeat split; try assumption; lia.
Qed.

(** The board fields never change. *)
Lemma step_board c :
  let g := config_game c in
  let g' := config_game (step P c) in
  board_size g' = board_size g ∧ words g' = words g ∧
  board g' = board g ∧ card_types g' = card_types g.
Proof.
  cbv zeta. step_cases P c; try (repeat split; reflexivity).
  unfold guess_once.
  destruct (give_guess P tc gm g clue count) as [guess |];
    [| repeat split; reflexivity].
  pose proof (reveal_card_same_board g guess) as (H1 & H2 & H3 & H4 & _).
  destruct (reveal_card g guess) as [g1 [success card_type]]. simpl in *.
  destruct success; simpl; [| by repeat split].
  destruct (check_win_condition g1); [by repeat split |].
  destruct (bool_decide (card_type = Some (TeamCard (turn g1)))); simpl;
    [by repeat split |].
  destruct (bool_decide (card_type = Some ASSASSIN)); by repeat split.
Qed.

(** X11: [play_game] never touches the board it set up: after any number
    of moves, whatever the players answer, [words], the grid, the role map
    and the board size are those of [setup_board]. *)
Theorem play_game_board (d : Draw) (n : nat) :
  let g := config_game (run P n (start d)) in
  board_size g = 5 ∧ words g = sampled d ∧
  board g = grid 5 (sampled d) ∧
  card_types g = assign_cards (sampled d) (shuffled d).
Proof.
  cbv zeta.
  pose (ok := fun g : CodenamesGame =>
          board_size g = 5 ∧ words g = sampled d ∧
          board g = grid 5 (sampled d) ∧
          card_types g = assign_cards (sampled d) (shuffled d)).
  assert (Hgen : ∀ c, ok (config_game c) → ok (config_game (run P n c))).
  { induction n as [| n IH]; intros c Hc; [exact Hc |].
    simpl. apply IH.
    destruct (step_board c) as (H1 & H2 & H3 & H4).
    destruct Hc as (K1 & K2 & K3 & K4).
    unfold ok. repeat split; congruence. }
  apply (Hgen (start d)). unfold ok. repeat split.
Qed.




Lemma run_invariant (Q : Config → Prop) (n : nat) (c : Config) :
  (∀ c, Q c → Q (step P c)) → Q c → Q (run P n c).
Proof.
  intros Hstep. revert c. induction n as [| n IH]; intros c Hc; simpl;
    [exact Hc | by apply IH, Hstep].
Qed.

Lemma reveal_card_success g word :
  ((reveal_card g word).2).1 = true →
  word ∈ revealed (reveal_card g word).1 ∧
  (size (revealed (reveal_card g word).1) = S (size (revealed g))) ∧
  (reveal_card g word).2 = (true, Some (get_card_type g word)) ∧
  ∀ w, get_card_type (reveal_card g word).1 w = get_card_type g w.
Proof.
  destruct (decide (word ∈ words g ∧ word ∉ revealed g)) as [[Hin Hnew] | Hn].
  - intros _.
    assert (Hrev : revealed (reveal_card g word).1 = {[word]} ∪ revealed g).
    { rewrite reveal_card_applied by done.
      destruct (get_card_type g word) as [[|]| | |]; reflexivity. }
    rewrite Hrev. split; [apply elem_of_union; left; by apply elem_of_singleton |].
    split.
    { rewrite size_union by (by apply disjoint_singleton_l).
      by rewrite size_singleton. }
    split; [by rewrite reveal_card_applied |].
    intros w. unfold get_card_type.
    by destruct (reveal_card_same_board g word) as (_ & _ & _ & -> & _).
  - rewrite reveal_card_rejected; [discriminate |].
    destruct (decide (word ∈ words g)); [right | left; done].
    destruct (decide (word ∈ revealed g)); [done | tauto].
Qed.

Lemma guess_once_outcome turn_count g clue count guesses_made te tas :
  game_over g = false → outcome_ok g →
  outcome_ok
    (config_game (guess_once P turn_count g clue count guesses_made te tas)).
Proof.
  intros Hopen Hg. unfold guess_once.
  destruct (give_guess P turn_count guesses_made g clue count) as [guess |];
    [| exact Hg].
  pose proof (reveal_card_frame g guess) as Hframe.
  pose proof (reveal_card_success g guess) as Hsucc.
  destruct (reveal_card g guess) as [g1 [success card_type]].
  destruct Hframe as (Hfail & Hok). simpl in Hsucc.
  destruct success; simpl; [| by rewrite (Hfail eq_refl)].
  destruct (Hok eq_refl) as (Hover & Hwin & _ & Hrole & _).
  destruct (Hsucc eq_refl) as (Hin & _ & _ & Htypes).
  assert (Hnone : winner g1 = None).
  { rewrite Hwin. destruct Hg as [[_ Hg] _].
    destruct (winner g) as [t |]; [| reflexivity].
    rewrite Hg in Hopen by eauto. discriminate. }
  assert (Hg1 : outcome_ok g1).
  { split; [| intros t Ht; congruence].
    rewrite Hover, Hopen, Hnone. split; [discriminate | intros [t [=]]]. }
  destruct (check_win_condition g1) as [w |] eqn:Hcheck.
  { split; [split; [eauto | reflexivity] |].
    intros t [= <-]. left. unfold check_win_condition in Hcheck.
    destruct (Z.eqb_spec (red_remaining g1) 0);
      [injection Hcheck as <-; assumption |].
    destruct (Z.eqb_spec (blue_remaining g1) 0);
      [injection Hcheck as <-; assumption | discriminate]. }
  destruct (bool_decide (card_type = Some (TeamCard (turn g1)))); simpl;
    [exact Hg1 |].
  destruct (bool_decide_reflect (card_type = Some ASSASSIN)) as [Hass | _].
  - split; [split; [eauto | reflexivity] |].
    intros t _. right. exists guess. split; [exact Hin |].
    change (get_card_type g1 guess = ASSASSIN). rewrite Htypes. congruence.
  - exact Hg1.
Qed.

Lemma step_outcome c :
  outcome_ok (config_game c) → outcome_ok (config_game (step P c)).
Proof.
  destruct c as [tc g | tc g clue count gm te tas | tc g te tas | tc g];
    simpl; intros Hg.
  - destruct (negb (game_over g) && (tc <? max_turns)); [| exact Hg].
    destruct (give_clue P (tc + 1) g (turn g)) as [clue count].
    destruct (String.eqb clue "PASS"); exact Hg.
  - destruct ((gm <? count + 1) && negb (game_over g) && negb te) eqn:Hcond;
      [| exact Hg].
    apply guess_once_outcome; [| exact Hg].
    apply andb_prop in Hcond as [Hcond _].
    apply andb_prop in Hcond as [_ Hcond]. by apply negb_true_iff.
  - destruct (negb (game_over g) && te && negb tas); exact Hg.
  - exact Hg.
Qed.

Lemma start_outcome d : outcome_ok (config_game (start d)).
Proof.
  split; [split; [discriminate | intros [t [=]]] |]. intros t [=].
Qed.

(** X13: at every point of a run of [play_game], [game_over] is set
    exactly when a winner is recorded, and a recorded winner has earned
    it: either that team's remaining count is 0, or the assassin card is
    among the revealed words. *)
Theorem play_game_winner (d : Draw) (n : nat) :
  let g := config_game (run P n (start d)) in
  (game_over g = true ↔ ∃ t, winner g = Some t) ∧
  (∀ t, winner g = Some t →
        remaining t g = 0 ∨
        ∃ w, w ∈ revealed g ∧ get_card_type g w = ASSASSIN).
Proof.
  cbv zeta.
  apply (run_invariant (fun c => outcome_ok (config_game c)) n (start d));
    [apply step_outcome | apply start_outcome].
Qed.

Lemma reveal_card_size g word :
  (size (revealed (reveal_card g word).1) ≤ S (size (revealed g)))%nat.
Proof.
  pose proof (reveal_card_success g word) as Hs.
  pose proof (reveal_card_frame g word) as Hf.
  destruct (reveal_card g word) as [g1 [success ct]]. simpl in *.
  destruct success.
  - destruct (Hs eq_refl) as (_ & -> & _). lia.
  - destruct Hf as [Hf _]. rewrite (Hf eq_refl). lia.
Qed.

(** The guessing loop, from a point where the game is open and the turn
    has not been handed over: where it leaves, who is to move then, and
    how many cards at most it reveals. *)
Lemma guessing_summary (k : nat) :
  ∀ turn_count g clue count guesses_made te,
    (Z.to_nat (count + 1 - guesses_made) ≤ k)%nat →
    game_over g = false →
    te = true ∨ guesses_made < count + 1 →
    ∃ n g' te' tas',
      run P n (AtGuess turn_count g clue count guesses_made te false)
      = AfterGuesses turn_count g' te' tas' ∧
      (game_over g' = true ∨
       (te' = true ∧
        turn g' = if tas' then other_team (turn g) else turn g)) ∧
      (size (revealed g') ≤
       size (revealed g) + Z.to_nat (count + 1 - guesses_made))%nat.
Proof.
  induction k as [| k IH]; intros tc g clue count gm te Hk Hopen Hte.
  - assert (te = true) as -> by (destruct Hte; [done | lia]).
    exists 1%nat, g, true, false. simpl. rewrite andb_false_r.
    split; [reflexivity |]. split; [by right | lia].
  - destruct ((gm <? count + 1) && negb (game_over g) && negb te) eqn:Hcond.
    2:{ assert (te = true) as ->.
        { destruct te; [reflexivity |]. rewrite Hopen in Hcond. simpl in Hcond.
          rewrite !andb_true_r in Hcond. apply Z.ltb_ge in Hcond.
          destruct Hte; [done | lia]. }
        exists 1%nat, g, true, false. simpl. rewrite andb_false_r.
        split; [reflexivity |]. split; [by right | lia]. }
    pose proof Hcond as Hcond'.
    apply andb_prop in Hcond' as [Hcond' Hnte].
    apply andb_prop in Hcond' as [Hlt _]. apply Z.ltb_lt in Hlt.
    apply negb_true_iff in Hnte. subst te.
    assert (Hroom : (1 ≤ Z.to_nat (count + 1 - gm))%nat) by lia.
    remember (AtGuess tc g clue count gm false false) as c0 eqn:Hc0.
    assert (Hstep : step P c0 = guess_once P tc g clue count gm false false).
    { rewrite Hc0. simpl. rewrite Hopen. simpl.
      by rewrite (proj2 (Z.ltb_lt gm (count + 1)) Hlt). }
    clear Hc0.
    unfold guess_once in Hstep.
    destruct (give_guess P tc gm g clue count) as [guess |].
    2:{ exists 1%nat, g, true, false. cbn [run]. rewrite Hstep.
        split; [reflexivity |]. split; [by right | lia]. }
    pose proof (reveal_card_frame g guess) as Hframe.
    pose proof (reveal_card_size g guess) as Hsize.
    destruct (reveal_card g guess) as [g1 [success card_type]].
    destruct Hframe as (Hfail & Hok). simpl in Hsize.
    destruct success; simpl in Hstep.
    2:{ exists 1%nat, g1, true, false. cbn [run]. rewrite Hstep.
        rewrite (Hfail eq_refl).
        split; [reflexivity |]. split; [by right | lia]. }
    destruct (Hok eq_refl) as (Hover & _ & Hturn & _).
    destruct (check_win_condition g1) as [w |].
    { eexists 1%nat, _, false, false. cbn [run]. rewrite Hstep.
      split; [reflexivity |]. split; [by left | simpl; lia]. }
    destruct (bool_decide (card_type = Some (TeamCard (turn g1))));
      simpl in Hstep.
    + destruct (IH tc g1 clue count (gm + 1)
                   (if gm + 1 >=? count + 1 then true else false))
        as (n & g' & te' & tas' & Hrun & Hturn' & Hsize');
        [lia | congruence | |].
      { destruct (Z.geb_spec (gm + 1) (count + 1)); [by left | right; lia]. }
      exists (S n), g', te', tas'. cbn [run]. rewrite Hstep.
      split; [exact Hrun |]. split; [by rewrite <- Hturn | lia].
    + destruct (bool_decide (card_type = Some ASSASSIN)).
      * eexists 1%nat, _, false, false. cbn [run]. rewrite Hstep.
        split; [reflexivity |]. split; [by left | simpl; lia].
      * eexists 1%nat, _, true, true. cbn [run]. rewrite Hstep.
        split; [reflexivity |]. split; [right | simpl; lia].
        split; [reflexivity |]. simpl. by rewrite Hturn.
Qed.

(** One whole turn, from the head of the outer loop to its next head. *)
Lemma turn_summary turn_count g clue count :
  game_over g = false → turn_count < max_turns →
  give_clue P (turn_count + 1) g (turn g) = (clue, count) →
  ∃ n g',
    run P (S n) (AtTurn turn_count g) = AtTurn (turn_count + 1) g' ∧
    (clue = "PASS" ∨ 0 ≤ count →
     game_over g' = true ∨ turn g' = other_team (turn g)) ∧
    (size (revealed g') ≤
     size (revealed g)
     + (if String.eqb clue "PASS" then 0 else Z.to_nat (count + 1)))%nat.
Proof.
  intros Hopen Htc Hclue.
  assert (Hstep : step P (AtTurn turn_count g) =
                  if String.eqb clue "PASS"
                  then AtTurn (turn_count + 1) (set_turn (other_team (turn g)) g)
                  else AtGuess (turn_count + 1) g clue count 0 false false).
  { simpl. rewrite Hopen, Hclue. simpl.
    by rewrite (proj2 (Z.ltb_lt turn_count max_turns) Htc). }
  destruct (String.eqb clue "PASS") eqn:Hpass.
  { exists 0%nat, (set_turn (other_team (turn g)) g). cbn [run].
    split; [exact Hstep |]. split; [intros _; by right | simpl; lia]. }
  destruct (Z.le_gt_cases 0 count) as [Hcount | Hcount].
  - destruct (guessing_summary (Z.to_nat (count + 1)) (turn_count + 1) g clue
                count 0 false)
      as (n & g1 & te1 & tas1 & Hrun & Hturn & Hsize);
      [lia | exact Hopen | right; lia |].
    rewrite Z.sub_0_r in Hsize.
    set (g2 := if negb (game_over g1) && te1 && negb tas1
               then set_turn (other_team (turn g1)) g1 else g1).
    exists (n + 1)%nat, g2. split.
    { cbn [run]. rewrite Hstep, run_add, Hrun. simpl. unfold g2.
      by destruct (negb (game_over g1) && te1 && negb tas1). }
    split.
    + intros _. unfold g2.
      destruct Hturn as [Hover | [-> Hturn]];
        [left; rewrite Hover; simpl; exact Hover |].
      destruct (game_over g1) eqn:Hover; [by left |]. right.
      destruct tas1; simpl; [exact Hturn | by rewrite Hturn].
    + unfold g2.
      by destruct (negb (game_over g1) && te1 && negb tas1).
  - exists 2%nat, g. split.
    { cbn [run]. rewrite Hstep. cbn [step].
      replace (0 <? count + 1) with false by (symmetry; apply Z.ltb_ge; lia).
      cbn [andb]. cbn [step]. by rewrite Hopen. }
    split; [intros [-> | ?]; [discriminate | lia] | lia].
Qed.

(** X14: a turn of [play_game] whose clue is ["PASS"] or carries a count
    of at least 0 always ends, and when the game is still open after it,
    the other team is to move: the turn is handed over exactly once,
    however the guessing went. *)
Theorem turn_hands_over (turn_count : Z) (g : CodenamesGame)
    (clue : string) (count : Z) :
  game_over g = false → turn_count < max_turns →
  give_clue P (turn_count + 1) g (turn g) = (clue, count) →
  clue = "PASS" ∨ 0 ≤ count →
  ∃ n g',
    run P (S n) (AtTurn turn_count g) = AtTurn (turn_count + 1) g' ∧
    (game_over g' = true ∨ turn g' = other_team (turn g)).
Proof.
  intros Hopen Htc Hclue Hcount.
  destruct (turn_summary turn_count g clue count Hopen Htc Hclue)
    as (n & g' & Hrun & Hturn & _).
  exists n, g'. split; [exact Hrun | by apply Hturn].
Qed.

(** X15: in one turn of [play_game] at most [count + 1] cards are
    revealed, and none at all when the clue is ["PASS"] or the count is
    negative. *)
Theorem turn_reveals_bounded (turn_count : Z) (g : CodenamesGame)
    (clue : string) (count : Z) :
  game_over g = false → turn_count < max_turns →
  give_clue P (turn_count + 1) g (turn g) = (clue, count) →
  ∃ n g',
    run P (S n) (AtTurn turn_count g) = AtTurn (turn_count + 1) g' ∧
    (size (revealed g') ≤
     size (revealed g)
     + (if String.eqb clue "PASS" then 0 else Z.to_nat (count + 1)))%nat.
Proof.
  intros Hopen Htc Hclue.
  destruct (turn_summary turn_count g clue count Hopen Htc Hclue)
    as (n & g' & Hrun & _ & Hsize).
  exists n, g'. by split.
Qed.

(** X16: a clue other than ["PASS"] with a negative count uses up a turn
    of the counter, but nothing is guessed and the turn is not handed
    over: the same team is asked for a clue again, on the same game. *)
Theorem negative_count_keeps_turn (turn_count : Z) (g : CodenamesGame)
    (clue : string) (count : Z) :
  game_over g = false → turn_count < max_turns →
  give_clue P (turn_count + 1) g (turn g) = (clue, count) →
  clue ≠ "PASS" → count < 0 →
  run P 3 (AtTurn turn_count g) = AtTurn (turn_count + 1) g.
Proof.
  intros Hopen Htc Hclue Hpass Hcount. cbn [run].
  assert (Hstep : step P (AtTurn turn_count g)
                  = AtGuess (turn_count + 1) g clue count 0 false false).
  { simpl. rewrite Hopen, Hclue. simpl.
    rewrite (proj2 (Z.ltb_lt turn_count max_turns) Htc).
    by rewrite (proj2 (String.eqb_neq clue "PASS") Hpass). }
  rewrite Hstep. cbn [step].
  replace (0 <? count + 1) with false by (symmetry; apply Z.ltb_ge; lia).
  cbn [andb]. cbn [step]. by rewrite Hopen.
Qed.
End Play.

Lemma turn_hands_over_witness :
  ∃ n g',
    run ai_players (S n) (AtTurn 0 demo_game) = AtTurn 1 g' ∧
    (game_over g' = true ∨ turn g' = other_team (turn demo_game)).
Proof.
  apply (turn_hands_over ai_players 0 demo_game "BRIDING" 1).
  - reflexivity.
  - reflexivity.
  - vm_compute. reflexivity.
  - right. lia.
Defined.

Lemma turn_reveals_bounded_witness :
  ∃ n g',
    run ai_players (S n) (AtTurn 0 demo_game) = AtTurn 1 g' ∧
    (size (revealed g') ≤ size (revealed demo_game) + 2)%nat.
Proof.
  apply (turn_reveals_bounded ai_players 0 demo_game "BRIDING" 1).
  - reflexivity.
  - reflexivity.
  - vm_compute. reflexivity.
Defined.

Lemma negative_count_keeps_turn_witness :
  run minus_players 3 (AtTurn 0 demo_game) = AtTurn 1 demo_game.
Proof.
  apply (negative_count_keeps_turn minus_players 0 demo_game "FRUIT" (-1)).
  - reflexivity.
  - reflexivity.
  - reflexivity.
  - discriminate.
  - lia.
Defined.

Lemma play_game_counts_witness :
  let g := config_game (run ai_players 20 (start demo_draw)) in
  red_remaining g = unrevealed_count RED g ∧
  blue_remaining g = unrevealed_count BLUE g ∧
  0 ≤ red_remaining g ≤ 9 ∧ 0 ≤ blue_remaining g ≤ 9 ∧
  (∀ w, w ∈ revealed g → w ∈ words g) ∧
  NoDup (words g).
Proof.
  apply (play_game_counts ai_players (run ai_players 20 (start demo_draw))).
  apply reached_run, reached_start, demo_draw_valid.
Defined.


(** ** Answers typed at the terminal *)

Lemma player_input_guess_found g clue count stdin w :
  (player_input_guess g clue count stdin).1 = Some w →
  w ∈ words g ∧ (w ∉ revealed g) ∧ w ≠ "PASS" ∧ w ≠ "" ∧
  ∃ s, Line s ∈ stdin ∧ w = Str.upper (Term.strip s).
Proof.
  induction stdin as [| [s |] rest IH]; simpl; [discriminate | | discriminate].
  destruct (String.eqb_spec (Str.upper (Term.strip s)) "PASS") as [Hp | Hp];
    [discriminate |].
  destruct (String.eqb_spec (Str.upper (Term.strip s)) "") as [He | He];
    [discriminate |]. simpl.
  assert (Hlater : (player_input_guess g clue count rest).1 = Some w →
                   w ∈ words g ∧ (w ∉ revealed g) ∧ w ≠ "PASS" ∧ w ≠ "" ∧
                   ∃ s0, Line s0 ∈ Line s :: rest ∧
                         w = Str.upper (Term.strip s0)).
  { intros H. destruct (IH H) as (H1 & H2 & H3 & H4 & s0 & H5 & H6).
    repeat split; try assumption. exists s0. split; [by right | exact H6]. }
  destruct (Str.mem (Str.upper (Term.strip s)) (words g)) eqn:Hm; simpl;
    [| exact Hlater].
  destruct (bool_decide_reflect (Str.upper (Term.strip s) ∈ revealed g))
    as [Hr | Hr]; [exact Hlater |].
  intros [= <-]. apply mem_elem_of in Hm.
  repeat split; try assumption. exists s. split; [by left | reflexivity].
Qed.

(** X17: a word returned by [player_input_guess] is on the board and not
    yet revealed, so that the [reveal_card] call that follows succeeds; it
    is a typed line, stripped and put in upper case, and is neither empty
    nor ["PASS"]. *)
Theorem player_input_guess_valid (g : CodenamesGame) (clue : string)
    (count : Z) (stdin : list Key) (w : string) :
  (player_input_guess g clue count stdin).1 = Some w →
  w ∈ words g ∧ (w ∉ revealed g) ∧ w ≠ "PASS" ∧ w ≠ "" ∧
  (∃ s, Line s ∈ stdin ∧ w = Str.upper (Term.strip s)) ∧
  (reveal_card g w).2 = (true, Some (get_card_type g w)).
Proof.
  intros H.
  destruct (player_input_guess_found g clue count stdin w H)
    as (H1 & H2 & H3 & H4 & H5).
  repeat split; try assumption. by rewrite reveal_card_applied.
Qed.

Lemma player_input_guess_valid_witness :
  "BEAR" ∈ words demo_game ∧ ("BEAR" ∉ revealed demo_game) ∧
  "BEAR" ≠ "PASS" ∧ "BEAR" ≠ "" ∧
  (∃ s, Line s ∈ [Line "zebra"; Line " bear "; Line "cat"] ∧
        "BEAR" = Str.upper (Term.strip s)) ∧
  (reveal_card demo_game "BEAR").2
  = (true, Some (get_card_type demo_game "BEAR")).
Proof.
  apply (player_input_guess_valid demo_game "ANIMAL" 2
           [Line "zebra"; Line " bear "; Line "cat"] "BEAR").
  vm_compute. reflexivity.
Defined.

Section Clue_input_facts.
Context (int_of : string → option Z).

Lemma read_count_range clue_input stdin :
  let '(text, count) := (read_count int_of clue_input stdin).1 in
  (text, count) = ("PASS", 0) ∨ (text = clue_input ∧ 1 ≤ count ≤ 9).
Proof.
  induction stdin as [| [s |] rest IH]; simpl; [by left | | by left].
  destruct (int_of (Term.strip s)) as [count |]; [| exact IH].
  destruct ((1 <=? count) && (count <=? 9)) eqn:Hr; [| exact IH].
  simpl. right. split; [reflexivity |].
  apply andb_prop in Hr as [H1 H2]. apply Z.leb_le in H1, H2. lia.
Qed.

Lemma player_input_clue_range g team stdin :
  let '(text, count) := (player_input_clue int_of g team stdin).1 in
  (text, count) = ("PASS", 0) ∨
  (text ≠ "" ∧ text ≠ "PASS" ∧ (text ∉ words g) ∧ 1 ≤ count ≤ 9 ∧
   ∃ s, Line s ∈ stdin ∧ text = Str.upper (Term.strip s)).
Proof.
  induction stdin as [| [s |] rest IH]; simpl; [by left | | by left].
  assert (Hlater :
            let '(text, count) := (player_input_clue int_of g team rest).1 in
            (text, count) = ("PASS", 0) ∨
            (text ≠ "" ∧ text ≠ "PASS" ∧ (text ∉ words g) ∧ 1 ≤ count ≤ 9 ∧
             ∃ s0, Line s0 ∈ Line s :: rest ∧
                   text = Str.upper (Term.strip s0))).
  { destruct (player_input_clue int_of g team rest).1 as [text count].
    destruct IH as [IH | (H1 & H2 & H3 & H4 & s0 & H5 & H6)]; [by left |].
    right. repeat split; try assumption; try lia.
    exists s0. split; [by right | exact H6]. }
  destruct (String.eqb_spec (Str.upper (Term.strip s)) "") as [He | He];
    [exact Hlater |].
  destruct (String.eqb_spec (Str.upper (Term.strip s)) "PASS") as [Hp | Hp];
    [by left |].
  destruct (Str.mem (Str.upper (Term.strip s)) (words g)) eqn:Hm;
    [exact Hlater |].
  pose proof (read_count_range (Str.upper (Term.strip s)) rest) as Hcount.
  destruct (read_count int_of (Str.upper (Term.strip s)) rest).1
    as [text count].
  destruct Hcount as [Hpass | [-> Hrange]]; [by left |].
  right. apply mem_false in Hm. repeat split; try assumption; try lia.
  exists s. split; [by left | reflexivity].
Qed.

(** X18: [player_input_clue] returns either the pass sentinel
    [("PASS", 0)] or a clue whose text is a typed line, stripped and in
    upper case, that is not empty, not ["PASS"] and not a board word,
    together with a count between 1 and 9; this whatever [int] makes of
    the lines typed for the count. *)
Theorem player_input_clue_valid (g : CodenamesGame) (team : Team)
    (stdin : list Key) (text : string) (count : Z) :
  (player_input_clue int_of g team stdin).1 = (text, count) →
  (text, count) = ("PASS", 0) ∨
  (text ≠ "" ∧ text ≠ "PASS" ∧ (text ∉ words g) ∧ 1 ≤ count ≤ 9 ∧
   ∃ s, Line s ∈ stdin ∧ text = Str.upper (Term.strip s)).
Proof.
  intros H. pose proof (player_input_clue_range g team stdin) as Hr.
  by rewrite H in Hr.
Qed.
End Clue_input_facts.

Lemma player_input_clue_valid_witness :
  ("FRUIT", 3) = ("PASS", 0) ∨
  ("FRUIT" ≠ "" ∧ "FRUIT" ≠ "PASS" ∧ ("FRUIT" ∉ words demo_game) ∧
   1 ≤ 3 ≤ 9 ∧
   ∃ s, Line s ∈ [Line ""; Line "apple"; Line "fruit"; Line "x"; Line "12";
                  Line " 3 "; Line "4"] ∧
        "FRUIT" = Str.upper (Term.strip s)).
Proof.
  apply (player_input_clue_valid digit_of demo_game RED
           [Line ""; Line "apple"; Line "fruit"; Line "x"; Line "12";
            Line " 3 "; Line "4"] "FRUIT" 3).
  vm_compute. reflexivity.
Defined.

(** ** [play_game] in its three modes *)

Lemma generate_clue_range team g :
  let '(text, count) := generate_clue team g in
  ((text, count) = ("PASS", 0) ∧ team_words team g = []) ∨
  1 ≤ count ≤ Z.of_nat (length (team_words team g)).
Proof.
  unfold generate_clue.
  destruct (team_words team g) as [| first rest] eqn:Htw; [by left |].
  destruct (best_of g (first :: rest) (clue_scores_of (first :: rest)))
    as [bc bn].
  cbn [length]. rewrite Nat2Z.inj_succ.
  destruct (truthy bc && (bn >? 0)) eqn:Hok; right; [| lia].
  apply andb_prop in Hok as [_ Hpos]. apply Z.gtb_lt in Hpos. lia.
Qed.

Section Modes.
Context (int_of : string → option Z) (mode : Z) (player_team : Team)
        (clue_stdin : Z → list Key) (guess_stdin : Z → Z → list Key).

Let P := mode_players int_of mode player_team clue_stdin guess_stdin.

(** X19: in every mode of [play_game], whether the operative is the AI or
    the player at the terminal, a guess that is handed to [reveal_card] is
    an unrevealed board word, so [success] is true: the invalid-guess
    branch of the loop is never taken. *)
Theorem mode_guess_valid (turn_count guesses_made : Z) (g : CodenamesGame)
    (clue : string) (count : Z) (w : string) :
  give_guess P turn_count guesses_made g clue count = Some w →
  w ∈ words g ∧ (w ∉ revealed g) ∧
  (reveal_card g w).2 = (true, Some (get_card_type g w)).
Proof.
  unfold P, mode_players, players_of_mode, human_players. simpl.
  destruct ((mode =? 2) && bool_decide (turn g = player_team)); intros H.
  - apply player_input_guess_found in H as (H1 & H2 & _).
    repeat split; try assumption. by rewrite reveal_card_applied.
  - apply make_guess_available in H as [H1 H2].
    repeat split; try assumption. by rewrite reveal_card_applied.
Qed.

Lemma mode_clue_count turn_count g team :
  let '(text, count) := give_clue P turn_count g team in
  (text, count) = ("PASS", 0) ∨
  (1 ≤ count ∧
   (count ≤ 9 ∨ count ≤ Z.of_nat (length (team_words team g)))).
Proof.
  unfold P, mode_players, players_of_mode, human_players. simpl.
  destruct ((mode =? 3) && bool_decide (team = player_team)).
  - pose proof (player_input_clue_range int_of g team (clue_stdin turn_count))
      as Hr.
    destruct (player_input_clue int_of g team (clue_stdin turn_count)).1
      as [text count].
    destruct Hr as [Hr | (_ & _ & _ & Hr & _)]; [by left | right; lia].
  - pose proof (generate_clue_range team g) as Hr.
    destruct (generate_clue team g) as [text count].
    destruct Hr as [[Hr _] | Hr]; [by left | right; lia].
Qed.

(** X20: in every mode of [play_game] a turn started on an open game
    below the turn ceiling comes to its end, and if the game is still open
    then, the other team is to move. *)
Theorem mode_turn_hands_over (turn_count : Z) (g : CodenamesGame) :
  game_over g = false → turn_count < max_turns →
  ∃ n g',
    run P (S n) (AtTurn turn_count g) = AtTurn (turn_count + 1) g' ∧
    (game_over g' = true ∨ turn g' = other_team (turn g)).
Proof.
  intros Hopen Htc.
  pose proof (mode_clue_count (turn_count + 1) g (turn g)) as Hcount.
  destruct (give_clue P (turn_count + 1) g (turn g)) as [clue count] eqn:Hclue.
  destruct (turn_summary P turn_count g clue count Hopen Htc Hclue)
    as (n & g' & Hrun & Hturn & _).
  exists n, g'. split; [exact Hrun |]. apply Hturn.
  destruct Hcount as [[= -> _] | [Hpos _]]; [by left | right; lia].
Qed.

(** X21: in every mode of [play_game], the clue given for a game in play
    is the pass sentinel or carries a count between 1 and 9, so that no
    turn reveals more than 10 cards. *)
Theorem mode_turn_reveals (c : Config) (turn_count : Z) (g : CodenamesGame)
    (clue : string) (count : Z) :
  reached P c → c = AtTurn turn_count g →
  game_over g = false → turn_count < max_turns →
  give_clue P (turn_count + 1) g (turn g) = (clue, count) →
  ((clue, count) = ("PASS", 0) ∨ 1 ≤ count ≤ 9) ∧
  ∃ n g',
    run P (S n) c = AtTurn (turn_count + 1) g' ∧
    (size (revealed g') ≤ size (revealed g) + 10)%nat.
Proof.
  intros Hreach -> Hopen Htc Hclue.
  pose proof (mode_clue_count (turn_count + 1) g (turn g)) as Hcount.
  rewrite Hclue in Hcount.
  apply reached_in_play, in_play_counts in Hreach.
  destruct Hreach as (_ & [Hr Hb] & _ & HR & HB & _). simpl in *.
  assert (Hteam : Z.of_nat (length (team_words (turn g) g)) ≤ 9).
  { rewrite team_words_count. destruct (turn g); lia. }
  assert (Hrange : (clue, count) = ("PASS", 0) ∨ 1 ≤ count ≤ 9).
  { destruct Hcount as [? | [? [? | ?]]]; [by left | right; lia | right; lia]. }
  split; [exact Hrange |].
  destruct (turn_summary P turn_count g clue count Hopen Htc Hclue)
    as (n & g' & Hrun & _ & Hsize).
  exists n, g'. split; [exact Hrun |].
  destruct Hrange as [[= -> ->] | Hrange]; simpl in Hsize; [lia |].
  destruct (String.eqb clue "PASS"); lia.
Qed.
End Modes.

Lemma mode_guess_valid_witness :
  "BEAR" ∈ words demo_game ∧ ("BEAR" ∉ revealed demo_game) ∧
  (reveal_card demo_game "BEAR").2
  = (true, Some (get_card_type demo_game "BEAR")).
Proof.
  apply (mode_guess_valid digit_of 2 BLUE (fun _ => [])
           (fun _ _ => [Line "bear"]) 1 0 demo_game "ANIMAL" 2 "BEAR").
  vm_compute. reflexivity.
Defined.

Lemma mode_turn_hands_over_witness :
  ∃ n g',
    run (mode_players digit_of 3 BLUE (fun _ => [Line "fruit"; Line "2"])
                      (fun _ _ => []))
        (S n) (AtTurn 0 demo_game) = AtTurn 1 g' ∧
    (game_over g' = true ∨ turn g' = other_team (turn demo_game)).
Proof.
  apply (mode_turn_hands_over digit_of 3 BLUE
           (fun _ => [Line "fruit"; Line "2"]) (fun _ _ => []) 0 demo_game).
  - reflexivity.
  - reflexivity.
Defined.

Lemma mode_turn_reveals_witness :
  let P := mode_players digit_of 3 BLUE (fun _ => [Line "fruit"; Line "2"])
                        (fun _ _ => []) in
  (("FRUIT", 2) = ("PASS", 0) ∨ 1 ≤ 2 ≤ 9) ∧
  ∃ n g',
    run P (S n) (start demo_draw) = AtTurn 1 g' ∧
    (size (revealed g') ≤ size (revealed demo_game) + 10)%nat.
Proof.
  apply (mode_turn_reveals digit_of 3 BLUE
           (fun _ => [Line "fruit"; Line "2"]) (fun _ _ => [])
           (start demo_draw) 0 demo_game "FRUIT" 2).
  - apply reached_start, demo_draw_valid.
  - reflexivity.
  - reflexivity.
  - reflexivity.
  - vm_compute. reflexivity.
Defined.

(** ** [display_board] *)

Lemma display_cell_hides (g : CodenamesGame) (types' : gmap string CardType)
    (word : string) :
  (∀ w, w ∈ revealed g → default UNKNOWN (types' !! w) = get_card_type g w) →
  display_cell (set_card_types types' g) false word = display_cell g false word.
Proof.
  intros Hsame. unfold display_cell. cbn [revealed set_card_types orb].
  destruct (bool_decide_reflect (word ∈ revealed g)) as [Hr | Hr];
    [| reflexivity].
  change (get_card_type (set_card_types types' g) word)
    with (default UNKNOWN (types' !! word)).
  by rewrite (Hsame word Hr).
Qed.

Lemma display_row_hides (g : CodenamesGame) (types' : gmap string CardType)
    (i : nat) :
  (∀ w, w ∈ revealed g → default UNKNOWN (types' !! w) = get_card_type g w) →
  display_row (set_card_types types' g) false i = display_row g false i.
Proof.
  intros Hsame. unfold display_row. cbn [board_size board set_card_types].
  replace (map _ (seq 0 (Z.to_nat (board_size g))))
    with (map (fun j =>
                 match board g !! i with
                 | Some row => option_map (display_cell g false) (row !! j)
                 | None => None
                 end)
              (seq 0 (Z.to_nat (board_size g)))); [reflexivity |].
  apply map_ext. intros j. destruct (board g !! i) as [row |]; [| reflexivity].
  destruct (row !! j) as [word |]; [| reflexivity]. simpl.
  by rewrite display_cell_hides.
Qed.

(** X22: the view printed with [show_all=False] tells nothing about the
    cards that are still hidden: with any other role map that agrees on
    the revealed words, [display_board] prints exactly the same text. *)
Theorem display_board_hides (g : CodenamesGame)
    (types' : gmap string CardType) :
  (∀ w, w ∈ revealed g → default UNKNOWN (types' !! w) = get_card_type g w) →
  display_board (set_card_types types' g) false = display_board g false.
Proof.
  intros Hsame. unfold display_board.
  cbn [board_size turn red_remaining blue_remaining set_card_types].
  replace (map (display_row (set_card_types types' g) false)
               (seq 0 (Z.to_nat (board_size g))))
    with (map (display_row g false) (seq 0 (Z.to_nat (board_size g))));
    [reflexivity |].
  apply map_ext. intros i. by rewrite display_row_hides.
Qed.

Lemma display_board_hides_witness :
  display_board (set_card_types ∅ demo_game) false
  = display_board demo_game false.
Proof.
  apply (display_board_hides demo_game ∅).
  intros w Hw. by apply elem_of_empty in Hw.
Defined.

Lemma collect_all {A} (l : list (option A)) :
  Forall is_Some l → is_Some (Show.collect l).
Proof.
  induction 1 as [| o l [x ->] _ [xs IH]]; simpl; [by eexists |].
  rewrite IH. by eexists.
Qed.

Lemma collect_missing {A} (l : list (option A)) :
  None ∈ l → Show.collect l = None.
Proof.
  induction l as [| [x |] l IH]; simpl.
  - intros H. by apply elem_of_nil in H.
  - intros [[=] | H]%elem_of_cons. by rewrite (IH H).
  - reflexivity.
Qed.

(** X23: on a set-up board, whatever has been revealed since,
    [display_board] prints (no index is out of range) in both views;
    on a game object that was never set up it raises [IndexError]. *)
Theorem display_board_prints (g : CodenamesGame) (show_all : bool) :
  reachable g →
  is_Some (display_board g show_all) ∧
  display_board new_game show_all = None.
Proof.
  intros Hg. split; [| reflexivity].
  destruct (reachable_origin g Hg) as (g0 & d & Hsize & Hd & Hsame & _).
  destruct Hsame as (Hbs & _ & Hboard & _). simpl in Hbs, Hboard.
  rewrite Hsize in Hbs, Hboard. change (Z.to_nat 5) with 5%nat in Hboard.
  destruct (valid_draw_facts g0 d Hsize Hd) as (_ & Hlen & _).
  assert (Hrows : ∀ i, (i < 5)%nat → is_Some (display_row g show_all i)).
  { intros i Hi. unfold display_row. rewrite Hbs, Hboard.
    change (Z.to_nat 5) with 5%nat.
    destruct (lookup_lt_is_Some_2 (grid 5 (sampled d)) i) as [row Hrow].
    { destruct (grid_25 (sampled d) Hlen) as (-> & _). exact Hi. }
    rewrite Hrow.
    destruct (collect_all
                (map (fun j => option_map (display_cell g show_all) (row !! j))
                     (seq 0 5))) as [cells ->]; [| by eexists].
    apply Forall_forall. intros o Ho.
    apply list_elem_of_In, in_map_iff in Ho as (j & <- & Hj).
    apply in_seq in Hj.
    destruct (grid_cell 5 (sampled d) i j row Hrow) as [_ Hcell]; [lia |].
    rewrite Hcell. by eexists. }
  unfold display_board. rewrite Hbs. change (Z.to_nat 5) with 5%nat.
  destruct (collect_all (map (display_row g show_all) (seq 0 5)))
    as [rows ->]; [| by eexists].
  apply Forall_forall. intros o Ho.
  apply list_elem_of_In, in_map_iff in Ho as (i & <- & Hi).
  apply in_seq in Hi. apply Hrows. lia.
Qed.

Lemma display_board_prints_witness :
  is_Some (display_board red_found false) ∧
  display_board new_game false = None.
Proof. exact (display_board_prints red_found false red_found_reachable). Defined.

(** ** AI against AI *)

Lemma WORD_POOL_lengths :
  forallb (fun w => (3 <=? Str.len w) && (Str.len w <=? 11)) WORD_POOL = true.
Proof. vm_compute. reflexivity. Qed.

Lemma WORD_POOL_clues :
  forallb
    (fun w =>
       forallb
         (fun c => (2 <=? Str.len c) && (Str.len c <=? 8)
                   && negb (String.eqb (Str.upper c) "PASS"))
         (_get_potential_clues w))
    WORD_POOL = true.
Proof. vm_compute. reflexivity. Qed.

Lemma upper_len (s : string) : Str.len (Str.upper s) = Str.len s.
Proof.
  unfold Str.len. f_equal.
  induction s as [| c s IH]; simpl; [reflexivity | by rewrite IH].
Qed.

Lemma in_play_pool g w : in_play g → w ∈ words g → In w WORD_POOL.
Proof.
  intros (g' & Hreach & (_ & Hw & _)) Hin. rewrite Hw in Hin.
  destruct (reachable_origin g' Hreach) as (g0 & d & Hsize & Hd & Hsame & _).
  destruct Hsame as (_ & Hw' & _). rewrite Hw' in Hin. simpl in Hin.
  destruct Hd as [Hs _]. apply list_elem_of_In.
  eapply sample_of_subseteq; [exact Hs | exact Hin].
Qed.

Lemma in_play_length g : in_play g → length (words g) = 25%nat.
Proof.
  intros (g' & Hreach & (_ & Hw & _)). rewrite Hw.
  destruct (reachable_origin g' Hreach) as (g0 & d & Hsize & Hd & Hsame & _).
  destruct Hsame as (_ & -> & _). simpl.
  by destruct (valid_draw_facts g0 d Hsize Hd) as (_ & -> & _).
Qed.

(** Where the text of an AI clue comes from. *)
Lemma generate_clue_source team g :
  team_words team g ≠ [] →
  let '(text, count) := generate_clue team g in
  1 ≤ count ∧
  (head (team_words team g) = Some text ∨
   ∃ w0 c, w0 ∈ team_words team g ∧
           Str.mem c (_get_potential_clues w0) = true ∧ text = Str.upper c).
Proof.
  intros Hne. unfold generate_clue.
  destruct (team_words team g) as [| first rest] eqn:Htw; [done |].
  set (tw := first :: rest).
  pose proof (best_of_max g tw (clue_scores_of tw)) as Hmax.
  destruct (best_of g tw (clue_scores_of tw)) as [bc bn].
  destruct Hmax as (_ & Hsome & _).
  destruct (truthy bc && (bn >? 0)) eqn:Hok; [| split; [lia | by left]].
  apply andb_prop in Hok as [Htruthy Hpos]. apply Z.gtb_lt in Hpos.
  destruct bc as [c |]; [| discriminate].
  destruct (Hsome c eq_refl) as (ws & Hin & Hbn & Hrange).
  split; [lia |]. right. cbn [default].
  rewrite (clue_scores_entry tw c ws Hin) in Hbn.
  destruct (linked c tw) as [| w0 l] eqn:Hlinked.
  { unfold links in Hbn. rewrite Hlinked in Hbn. vm_compute in Hbn. lia. }
  assert (Hw0 : w0 ∈ linked c tw) by (rewrite Hlinked; by left).
  unfold linked in Hw0. apply list_elem_of_In, filter_In in Hw0 as [Hw0 Hc].
  exists w0, c. split; [by apply list_elem_of_In |]. by split.
Qed.

Lemma make_guess_positive self g clue count w :
  clue ≠ "PASS" → count ≠ 0 → w ∈ available g → 0 < guess_score clue w →
  ∃ w', (make_guess self g clue count).2 = Some w'.
Proof.
  intros Hc Hn Hw Hpos.
  assert (Hgo : String.eqb clue "PASS" || (count =? 0) = false).
  { apply orb_false_intro; [by apply String.eqb_neq | by apply Z.eqb_neq]. }
  rewrite make_guess_unfold by done.
  destruct (sorted_desc _) as [| [bw bs] tl] eqn:Hs.
  - apply scores_empty in Hs. rewrite Hs in Hw. by apply elem_of_nil in Hw.
  - apply scores_head_max in Hs as (_ & _ & Hmax). specialize (Hmax w Hw).
    exists bw. replace (bs >? 0) with true; [reflexivity |].
    symmetry. apply Z.gtb_lt. lia.
Qed.

Lemma guess_score_same w : guess_score w w = 100.
Proof.
  unfold guess_score. rewrite _score_word_parts. by rewrite String.eqb_refl.
Qed.

(** On a board in play the AI operative always has an answer to the clue
    of its own spymaster, unless the text is PASS. *)
Lemma ai_first_guess self team g :
  in_play g → team_words team g ≠ [] →
  (generate_clue team g).1 ≠ "PASS" →
  ∃ w, (make_guess self g (generate_clue team g).1 (generate_clue team g).2).2
       = Some w.
Proof.
  intros Hplay Hne Hpass.
  pose proof (generate_clue_source team g Hne) as Hsrc.
  destruct (generate_clue team g) as [text count]. simpl in *.
  destruct Hsrc as [Hcount Hsrc].
  destruct (team_words team g) as [| first rest] eqn:Htw; [done |].
  assert (Hfirst : first ∈ team_words team g) by (rewrite Htw; by left).
  apply team_words_on_board in Hfirst as Hboard.
  assert (Hav : first ∈ available g) by (by apply available_spec).
  apply (make_guess_positive self g text count first);
    [exact Hpass | lia | exact Hav |].
  destruct Hsrc as [[= <-] | (w0 & c & Hw0 & Hc & ->)].
  { rewrite guess_score_same. lia. }
  assert (Hw0pool : In w0 WORD_POOL).
  { apply (in_play_pool g); [exact Hplay |].
    rewrite <- Htw in Hw0. by apply team_words_on_board in Hw0 as [? _]. }
  assert (Hfpool : In first WORD_POOL).
  { apply (in_play_pool g); [exact Hplay | tauto]. }
  pose proof WORD_POOL_lengths as HL. rewrite forallb_forall in HL.
  specialize (HL first Hfpool). apply andb_prop in HL as [HL1 HL2].
  apply Z.leb_le in HL1, HL2.
  pose proof WORD_POOL_clues as HC. rewrite forallb_forall in HC.
  specialize (HC w0 Hw0pool). rewrite forallb_forall in HC.
  apply mem_elem_of, list_elem_of_In in Hc. specialize (HC c Hc).
  apply andb_prop in HC as [HC _]. apply andb_prop in HC as [HC1 HC2].
  apply Z.leb_le in HC1, HC2.
  pose proof (guess_score_lower_bound (Str.upper c) first) as Hlow.
  rewrite upper_len in Hlow. lia.
Qed.

(** The text PASS can only be the fallback on the team's own card PASS. *)
Lemma ai_text_PASS team g :
  in_play g → team_words team g ≠ [] →
  (generate_clue team g).1 = "PASS" →
  get_card_type g "PASS" = TeamCard team.
Proof.
  intros Hplay Hne Hpass.
  pose proof (generate_clue_source team g Hne) as Hsrc.
  destruct (generate_clue team g) as [text count]. simpl in Hpass. subst text.
  destruct Hsrc as [_ [Hhead | (w0 & c & Hw0 & Hc & Hup)]].
  - assert (Hin : "PASS" ∈ team_words team g).
    { destruct (team_words team g) as [| first rest]; [done |].
      injection Hhead as ->. by left. }
    unfold team_words in Hin. apply list_elem_of_In, filter_In in Hin as [_ Hb].
    apply andb_prop in Hb as [_ Hb]. by apply bool_decide_eq_true in Hb.
  - exfalso.
    assert (Hw0pool : In w0 WORD_POOL).
    { apply (in_play_pool g); [exact Hplay |].
      by apply team_words_on_board in Hw0 as [? _]. }
    pose proof WORD_POOL_clues as HC. rewrite forallb_forall in HC.
    specialize (HC w0 Hw0pool). rewrite forallb_forall in HC.
    apply mem_elem_of, list_elem_of_In in Hc. specialize (HC c Hc).
    apply andb_prop in HC as [_ HC]. apply negb_true_iff in HC.
    apply String.eqb_neq in HC. congruence.
Qed.

Lemma team_words_open team g :
  counts_agree g → remaining team g ≠ 0 → team_words team g ≠ [].
Proof.
  intros [Hr Hb] Hrem Htw.
  pose proof (team_words_count team g) as Hc. rewrite Htw in Hc. simpl in Hc.
  destruct team; simpl in Hrem; lia.
Qed.

Lemma hidden_card_size g w :
  in_play g → w ∈ words g → w ∉ revealed g →
  (size (revealed g) ≤ 24)%nat.
Proof.
  intros Hplay Hin Hnew.
  pose proof (in_play_length g Hplay) as Hlen.
  apply in_play_counts in Hplay as (Hnd & _ & Hsub & _).
  assert (Hincl : revealed g ⊆ list_to_set (words g) ∖ {[w]}).
  { intros x Hx. apply elem_of_difference. split.
    - apply elem_of_list_to_set. by apply Hsub.
    - intros Heq%elem_of_singleton. by subst x. }
  apply subseteq_size in Hincl.
  rewrite size_difference in Hincl.
  2:{ intros x Hx%elem_of_singleton. subst x. by apply elem_of_list_to_set. }
  rewrite size_list_to_set, size_singleton, Hlen in Hincl by exact Hnd.
  lia.
Qed.

Lemma reveal_card_size_mono g word :
  (size (revealed g) ≤ size (revealed (reveal_card g word).1))%nat.
Proof.
  pose proof (reveal_card_success g word) as Hs.
  pose proof (reveal_card_frame g word) as Hf.
  destruct (reveal_card g word) as [g1 [success ct]]. simpl in *.
  destruct success.
  - destruct (Hs eq_refl) as (_ & -> & _). lia.
  - destruct Hf as [Hf _]. by rewrite (Hf eq_refl).
Qed.

Section Progress.
Context (P : Players).

Lemma guess_once_revealed_mono turn_count g clue count guesses_made te tas :
  (size (revealed g) ≤
   size (revealed
           (config_game
              (guess_once P turn_count g clue count guesses_made te tas))))%nat.
Proof.
  unfold guess_once.
  destruct (give_guess P turn_count guesses_made g clue count) as [guess |];
    [| reflexivity].
  pose proof (reveal_card_size_mono g guess) as Hm.
  destruct (reveal_card g guess) as [g1 [success card_type]]. simpl in Hm.
  destruct success; simpl; [| exact Hm].
  destruct (check_win_condition g1); [exact Hm |].
  destruct (bool_decide (card_type = Some (TeamCard (turn g1)))); simpl;
    [exact Hm |].
  destruct (bool_decide (card_type = Some ASSASSIN)); exact Hm.
Qed.

Lemma step_revealed_mono c :
  (size (revealed (config_game c)) ≤
   size (revealed (config_game (step P c))))%nat.
Proof.
  step_cases P c; try reflexivity. apply guess_once_revealed_mono.
Qed.

Lemma run_revealed_mono n c :
  (size (revealed (config_game c)) ≤
   size (revealed (config_game (run P n c))))%nat.
Proof.
  revert c. induction n as [| n IH]; intros c; simpl; [reflexivity |].
  etrans; [apply step_revealed_mono | apply IH].
Qed.

Lemma run_card_types n c w :
  get_card_type (config_game (run P n c)) w = get_card_type (config_game c) w.
Proof.
  revert c. induction n as [| n IH]; intros c; simpl; [reflexivity |].
  rewrite IH. unfold get_card_type.
  by destruct (step_board P c) as (_ & _ & _ & -> ).
Qed.

Lemma guess_once_first turn_count g clue count guesses_made te tas w :
  give_guess P turn_count guesses_made g clue count = Some w →
  w ∈ words g → w ∉ revealed g →
  size (revealed
          (config_game
             (guess_once P turn_count g clue count guesses_made te tas)))
  = S (size (revealed g)).
Proof.
  intros Hguess Hin Hnew. unfold guess_once. rewrite Hguess.
  pose proof (reveal_card_success g w) as Hs.
  rewrite reveal_card_applied in Hs by done.
  rewrite reveal_card_applied by done.
  cbv zeta in *. cbn [fst snd] in Hs.
  destruct (Hs eq_refl) as (_ & Hsize & _).
  set (g1 := match get_card_type g w with
             | TeamCard RED => _ | TeamCard BLUE => _ | _ => _ end) in *.
  cbn [negb]. 
  destruct (check_win_condition g1); [exact Hsize |].
  destruct (bool_decide (Some (get_card_type g w) = Some (TeamCard (turn g1))));
    simpl; [exact Hsize |].
  destruct (bool_decide (Some (get_card_type g w) = Some ASSASSIN));
    exact Hsize.
Qed.
End Progress.

Lemma check_win_none g :
  check_win_condition g = None → red_remaining g ≠ 0 ∧ blue_remaining g ≠ 0.
Proof.
  unfold check_win_condition.
  destruct (Z.eqb_spec (red_remaining g) 0); [discriminate |].
  destruct (Z.eqb_spec (blue_remaining g) 0); [discriminate | done].
Qed.

(** One AI turn on an open game: it ends, and either the game is over or
    the other team is to move and the measure has gone down. *)
Lemma ai_turn_progress turn_count g :
  reached ai_players (AtTurn turn_count g) →
  game_over g = false → turn_count < max_turns →
  ∃ n g',
    run ai_players (S n) (AtTurn turn_count g) = AtTurn (turn_count + 1) g' ∧
    (game_over g' = true ∨
     (game_over g' = false ∧ turns_left g' < turns_left g)).
Proof.
  intros Hreach Hopen Htc.
  pose proof (reached_in_play _ _ Hreach) as Hplay. simpl in Hplay.
  pose proof (reached_nobody_done _ _ Hreach) as Hnone. simpl in Hnone.
  specialize (Hnone Hopen). apply check_win_none in Hnone.
  destruct (in_play_counts g Hplay) as (Hnd & Hagree & Hsub & _).
  assert (Htw : team_words (turn g) g ≠ []).
  { apply team_words_open; [exact Hagree |]. destruct (turn g); simpl; tauto. }
  destruct (generate_clue (turn g) g) as [text count] eqn:Hclue.
  assert (Hgive : give_clue ai_players (turn_count + 1) g (turn g)
                  = (text, count)) by exact Hclue.
  destruct (String.eqb_spec text "PASS") as [-> | Hpass].
  - exists 0%nat, (set_turn (other_team (turn g)) g). split.
    { cbn [run step]. rewrite Hopen, Hgive. simpl.
      by rewrite (proj2 (Z.ltb_lt turn_count max_turns) Htc). }
    right. split; [exact Hopen |].
    pose proof (ai_text_PASS (turn g) g Hplay Htw) as Hown.
    rewrite Hclue in Hown. specialize (Hown eq_refl).
    unfold turns_left, owns_PASS. cbn [revealed turn set_turn].
    change (get_card_type (set_turn (other_team (turn g)) g) "PASS")
      with (get_card_type g "PASS").
    rewrite Hown.
    rewrite (bool_decide_eq_true_2 (TeamCard (turn g) = TeamCard (turn g)))
      by reflexivity.
    rewrite bool_decide_eq_false_2; [lia |].
    intros [= Heq]. by destruct (turn g).
  - pose proof (generate_clue_source (turn g) g Htw) as Hsrc.
    rewrite Hclue in Hsrc. destruct Hsrc as [Hcount _].
    destruct (turn_summary ai_players turn_count g text count Hopen Htc Hgive)
      as (n & g' & Hrun & Hturn & _).
    exists n, g'. split; [exact Hrun |].
    destruct (game_over g') eqn:Hover'; [by left | right].
    split; [reflexivity |].
    destruct (ai_first_guess (mkGuesser (turn g) None 0) (turn g) g Hplay Htw)
      as (w & Hw); [by rewrite Hclue |].
    rewrite Hclue in Hw. simpl in Hw.
    pose proof (make_guess_available _ _ _ _ _ Hw) as [Hin Hnew].
    assert (Hstep1 : step ai_players (AtTurn turn_count g)
                     = AtGuess (turn_count + 1) g text count 0 false false).
    { cbn [step]. rewrite Hopen, Hgive. simpl.
      rewrite (proj2 (Z.ltb_lt turn_count max_turns) Htc).
      by rewrite (proj2 (String.eqb_neq text "PASS") Hpass). }
    assert (Hstep2 : step ai_players
                       (AtGuess (turn_count + 1) g text count 0 false false)
                     = guess_once ai_players (turn_count + 1) g text count 0
                                  false false).
    { cbn [step]. rewrite Hopen. simpl.
      by rewrite (proj2 (Z.ltb_lt 0 (count + 1))) by lia. }
    assert (Hgrow : (S (size (revealed g)) ≤ size (revealed g'))%nat).
    { cbn [run] in Hrun. rewrite Hstep1 in Hrun.
      destruct n as [| n]; [discriminate Hrun |].
      cbn [run] in Hrun. rewrite Hstep2 in Hrun.
      rewrite <- (guess_once_first ai_players (turn_count + 1) g text count 0
                    false false w Hw Hin Hnew).
      pose proof (run_revealed_mono ai_players n
                    (guess_once ai_players (turn_count + 1) g text count 0
                                false false)) as Hmono.
      by rewrite Hrun in Hmono. }
    unfold turns_left.
    destruct (owns_PASS g'), (owns_PASS g); lia.
Qed.

Lemma ai_game_decided (k : nat) :
  ∀ turn_count g,
    reached ai_players (AtTurn turn_count g) →
    game_over g = false → 0 ≤ turn_count →
    turn_count + turns_left g ≤ 51 →
    (Z.to_nat (turns_left g) ≤ k)%nat →
    ∃ n turn_count' g',
      run ai_players n (AtTurn turn_count g) = Finished turn_count' g' ∧
      game_over g' = true.
Proof.
  induction k as [| k IH]; intros tc g Hreach Hopen Htc0 Hsum Hk.
  all: pose proof (reached_in_play _ _ Hreach) as Hplay; simpl in Hplay.
  all: pose proof (reached_nobody_done _ _ Hreach) as Hnone; simpl in Hnone.
  all: specialize (Hnone Hopen); apply check_win_none in Hnone.
  all: destruct (in_play_counts g Hplay) as (_ & Hagree & _).
  all: assert (Htw : team_words RED g ≠ [])
         by (apply team_words_open; [exact Hagree | simpl; tauto]).
  all: destruct (team_words RED g) as [| w rest] eqn:Hw; [done |].
  all: assert (Hin : w ∈ team_words RED g) by (rewrite Hw; by left).
  all: apply team_words_on_board in Hin as [Hin Hnew].
  all: pose proof (hidden_card_size g w Hplay Hin Hnew) as Hsize.
  all: assert (Hleft : 2 ≤ turns_left g)
         by (unfold turns_left; destruct (owns_PASS g); lia).
  - lia.
  - assert (Hlt : tc < max_turns) by (unfold max_turns; lia).
    destruct (ai_turn_progress tc g Hreach Hopen Hlt)
      as (n & g' & Hrun & [Hover | [Hopen' Hless]]).
    + exists (S n + 1)%nat, (tc + 1), g'. rewrite run_add, Hrun.
      simpl. rewrite Hover. by split.
    + destruct (IH (tc + 1) g') as (n' & tc' & g2 & Hrun' & Hover2);
        [| exact Hopen' | lia | lia | lia |].
      { rewrite <- Hrun. by apply reached_run. }
      exists (S n + n')%nat, tc', g2. rewrite run_add, Hrun. by split.
Qed.

(** X24: a game between the AI players alone, on any board that
    [setup_board] can produce, always ends with a winner: the loop of
    [play_game] is left with [game_over] set and a winner recorded, never
    because the ceiling of 50 turns was reached with the game open. *)
Theorem ai_game_has_winner (d : Draw) :
  valid_draw new_game d →
  ∃ n turn_count g,
    run ai_players n (start d) = Finished turn_count g ∧
    turn_count ≤ max_turns ∧
    game_over g = true ∧ ∃ t, winner g = Some t.
Proof.
  intros Hd.
  destruct (ai_game_decided (Z.to_nat 51) 0 (setup_board new_game d))
    as (n & tc & g & Hrun & Hover).
  - by apply reached_start.
  - reflexivity.
  - lia.
  - unfold turns_left. cbn [revealed setup_board]. rewrite size_empty.
    destruct (owns_PASS _); lia.
  - unfold turns_left. cbn [revealed setup_board]. rewrite size_empty.
    destruct (owns_PASS _); lia.
  - change (AtTurn 0 (setup_board new_game d)) with (start d) in Hrun.
    exists n, tc, g. split; [exact Hrun |].
    pose proof (run_turns ai_players n (start d)) as Hturns.
    rewrite Hrun in Hturns. simpl in Hturns.
    split; [apply Hturns; unfold max_turns; lia |].
    split; [exact Hover |].
    pose proof (run_invariant ai_players
                  (fun c => outcome_ok (config_game c)) n (start d)
                  (step_outcome ai_players) (start_outcome d)) as [Hout _].
    rewrite Hrun in Hout. simpl in Hout. by apply Hout.
Qed.

Lemma ai_game_has_winner_witness :
  ∃ n turn_count g,
    run ai_players n (start demo_draw) = Finished turn_count g ∧
    turn_count ≤ max_turns ∧
    game_over g = true ∧ ∃ t, winner g = Some t.
Proof. exact (ai_game_has_winner demo_draw demo_draw_valid). Defined.

(** ** The menus and the PASS card *)



(** X26: when the search of the AI spymaster finds nothing and the team's
    first unrevealed card is the pool word PASS, the fallback clue is
    [("PASS", 1)], and [play_game], which tests the text alone, takes it
    for a pass: the turn goes to the other team with no card revealed,
    although the team still has cards to find. *)
Theorem fallback_PASS_skips_turn (turn_count : Z) (g : CodenamesGame) :
  game_over g = false → turn_count < max_turns →
  association_found (turn g) g = false →
  head (team_words (turn g) g) = Some "PASS" →
  generate_clue (turn g) g = ("PASS", 1) ∧
  0 < unrevealed_count (turn g) g ∧
  step ai_players (AtTurn turn_count g)
  = AtTurn (turn_count + 1) (set_turn (other_team (turn g)) g).
Proof.
  intros Hopen Htc Hnone Hhead.
  assert (Hclue : generate_clue (turn g) g = ("PASS", 1)).
  { unfold association_found in Hnone. unfold generate_clue.
    destruct (team_words (turn g) g) as [| first rest]; [discriminate |].
    injection Hhead as ->.
    destruct (best_of g ("PASS" :: rest) (clue_scores_of ("PASS" :: rest)))
      as [bc bn].
    by rewrite Hnone. }
  split; [exact Hclue |]. split.
  - rewrite <- team_words_count.
    destruct (team_words (turn g) g); [discriminate | simpl; lia].
  - cbn [step]. rewrite Hopen. cbn [negb andb].
    rewrite (proj2 (Z.ltb_lt turn_count max_turns) Htc).
    change (give_clue ai_players (turn_count + 1) g (turn g))
      with (generate_clue (turn g) g).
    by rewrite Hclue.
Qed.

Lemma fallback_PASS_skips_turn_witness :
  generate_clue (turn pass_game) pass_game = ("PASS", 1) ∧
  0 < unrevealed_count (turn pass_game) pass_game ∧
  step ai_players (AtTurn 0 pass_game)
  = AtTurn (0 + 1) (set_turn (other_team (turn pass_game)) pass_game).
Proof.
  apply (fallback_PASS_skips_turn 0 pass_game).
  - reflexivity.
  - reflexivity.
  - vm_compute. reflexivity.
  - vm_compute. reflexivity.
Defined.
